(** * cpp17_learn: a shallow embedding of main.cpp

    The program is a sequence of small routines, each showing one C++17
    feature and writing to [cout].  The routines are embedded as
    computations of a state-and-failure monad whose state holds the text
    written to [cout] and the state of the C library's random generator.

    Conventions.
    - [int] is a 32-bit two's complement integer carried by [Z]; the
      results of [+] and [*] are wrapped ([wrap_int]).  The standard
      leaves the overflow of a signed operation undefined; wrapping is
      what the operation does on the machines the program is built for,
      and every property below says where it relies on it.
    - A [vector<T>] is a [list T]; an iterator into it is a position
      ([nat]), with [end()] the length of the list.
    - Behaviour the language leaves undefined (modulo by zero, reading
      through [end()]) and the exception of the vector constructor are
      failures of the monad.  Memory is not bounded: an allocation does
      not fail.
    - The algorithms the program takes from the standard library
      ([generate], [transform], [max_element], [for_each]) are written as
      the loops the C++ standard gives for them. *)

From Stdlib Require Import ZArith Lia Ascii String DecimalString DecimalZ.
From stdpp Require Import base list strings.

Local Open Scope Z_scope.

(** ** The [int] type *)

Definition INT_MIN : Z := - 2 ^ 31.
Definition INT_MAX : Z := 2 ^ 31 - 1.

Definition int_range (z : Z) : Prop := INT_MIN <= z <= INT_MAX.

Definition wrap_int (z : Z) : Z := (z + 2 ^ 31) mod 2 ^ 32 - 2 ^ 31.

Definition int_add (a b : Z) : Z := wrap_int (a + b).
Definition int_mul (a b : Z) : Z := wrap_int (a * b).

(** ** Failures and the monad *)

Inductive failure : Type :=
| ModuloByZero      (* [x % 0], undefined *)
| ModuloOverflow    (* [INT_MIN % -1], undefined *)
| LengthError       (* [std::length_error] of [vector(n)] *)
| DerefEnd.         (* reading through [end()], undefined *)

Inductive result (A : Type) : Type :=
| Ok (a : A)
| Fail (e : failure).
Arguments Ok {A} a.
Arguments Fail {A} e.

(** The random generator of the C library is not part of the program: it
    is a parameter, with the contract the C standard gives [rand]
    (a value between 0 and [RAND_MAX], and [RAND_MAX] at least 32767).
    [rand_default] is the state of a process that never called [srand],
    which the standard fixes to that of [srand(1)]. *)
Record RandLib : Type := {
  rstate : Type;
  RAND_MAX : Z;
  rand_default : rstate;
  rand_step : rstate -> Z * rstate;
  RAND_MAX_range : 32767 <= RAND_MAX <= INT_MAX;
  rand_step_range : forall s, 0 <= fst (rand_step s) <= RAND_MAX
}.

Record world (L : RandLib) : Type := World {
  cout : string;
  rng : rstate L
}.
Arguments World {L} cout rng.
Arguments cout {L} w.
Arguments rng {L} w.

Definition M (L : RandLib) (A : Type) : Type := world L -> result (A * world L).

Definition ret {L A} (a : A) : M L A := fun w => Ok (a, w).

Definition bind {L A B} (m : M L A) (k : A -> M L B) : M L B :=
  fun w => match m w with
           | Ok (a, w') => k a w'
           | Fail e => Fail e
           end.

Definition fail {L A} (e : failure) : M L A := fun _ => Fail e.

Definition lift {L A} (r : result A) : M L A :=
  fun w => match r with Ok a => Ok (a, w) | Fail e => Fail e end.

Declare Scope cpp_scope.
Delimit Scope cpp_scope with cpp.
Notation "x <- m ;; k" := (bind m (fun x => k))
  (at level 100, m at next level, right associativity) : cpp_scope.
Notation "m ;; k" := (bind m (fun _ => k))
  (at level 100, right associativity) : cpp_scope.
Local Open Scope cpp_scope.

(** ** Writing to [cout] *)

Definition nl : string := String "010"%char EmptyString.

Definition put {L} (s : string) : M L unit :=
  fun w => Ok (tt, World (cout w +:+ s) (rng w)).

Definition endl {L} : M L unit := put nl.

(** [operator<<] on an [int] (and on [ptrdiff_t]): decimal digits, with a
    leading minus sign for a negative number. *)
Definition show_int (z : Z) : string := NilZero.string_of_int (Z.to_int z).

(** [rand()] *)
Definition rand {L} : M L Z :=
  fun w => let (v, s') := rand_step L (rng w) in Ok (v, World (cout w) s').

(** [a % b] on [int]: the remainder of the division that truncates. *)
Definition int_rem (a b : Z) : result Z :=
  if b =? 0 then Fail ModuloByZero
  else if (a =? INT_MIN) && (b =? -1) then Fail ModuloOverflow
  else Ok (Z.rem a b).

(** ** The element type of the templates

    [compare_values], [print_vec] and [generate_constexpr_lambda] are
    templates over the element type; they use its [operator<], its
    product with an [int] and its [operator<<]. *)
Class VecType (T : Type) : Type := {
  vt_less : T -> T -> bool;
  vt_times : T -> Z -> T;
  vt_show : T -> string
}.

#[export] Instance int_VecType : VecType Z := {
  vt_less := Z.ltb;
  vt_times := int_mul;
  vt_show := show_int
}.

(** ** Standard algorithms *)

(** [vector<int> v(n)]: [n] is converted to [size_t]; a negative [n]
    becomes a size above [max_size()] and the constructor throws. *)
Definition vector_int {L} (n : Z) : M L (list Z) :=
  if n <? 0 then fail LengthError else ret (replicate (Z.to_nat n) 0).

(** [generate(first, last, g)]: [for (; first != last; ++first) *first = g();] *)
Fixpoint generate_loop {L A} (g : M L A) (first count : nat) (v : list A)
  : M L (list A) :=
  match count with
  | O => ret v
  | S count' => x <- g ;; generate_loop g (S first) count' (<[first := x]> v)
  end.

Definition generate {L A} (g : M L A) (v : list A) : M L (list A) :=
  generate_loop g 0 (length v) v.

(** [transform(first, last, d_first, op)] with [d_first == first]:
    [while (first != last) { *d_first = op( *first ); ++d_first; ++first; }] *)
Fixpoint transform_loop {A} (op : A -> A) (first count : nat) (v : list A)
  : list A :=
  match count with
  | O => v
  | S count' =>
      match v !! first with
      | Some x => transform_loop op (S first) count' (<[first := op x]> v)
      | None => v
      end
  end.

Definition transform {A} (op : A -> A) (v : list A) : list A :=
  transform_loop op 0 (length v) v.

(** [max_element(first, last)]:
    [if (first == last) return last;
     largest = first;
     while (++first != last) if ( *largest < *first ) largest = first;
     return largest;] *)
Fixpoint max_element_loop {T} `{VecType T} (v : list T)
    (largest first count : nat) : nat :=
  match count with
  | O => largest
  | S count' =>
      match v !! largest, v !! first with
      | Some a, Some b =>
          max_element_loop v (if vt_less a b then first else largest)
                           (S first) count'
      | _, _ => largest
      end
  end.

Definition max_element {T} `{VecType T} (v : list T) : nat :=
  match v with
  | [] => 0%nat
  | _ :: _ => max_element_loop v 0 1 (length v - 1)
  end.

(** [*it] *)
Definition deref {L T} (v : list T) (it : nat) : M L T :=
  match v !! it with
  | Some x => ret x
  | None => fail DerefEnd
  end.

(** [distance(first, it)] *)
Definition distance (first it : nat) : Z := Z.of_nat it - Z.of_nat first.

(** [for_each(first, last, f)] *)
Fixpoint for_each {L A} (f : A -> M L unit) (v : list A) : M L unit :=
  match v with
  | [] => ret tt
  | x :: v' => f x ;; for_each f v'
  end.

(** ** The routines of main.cpp *)

(** The lambda of [generate_vector]: [rand() % rangeVal]. *)
Definition next_element {L} (rangeVal : Z) : M L Z :=
  r <- rand ;; lift (int_rem r rangeVal).

(** [generate_vector(sizeVal, rangeVal)] *)
Definition generate_vector {L} (sizeVal rangeVal : Z) : M L (list Z) :=
  vecA <- vector_int sizeVal ;;
  generate (next_element rangeVal) vecA.

(** [print_vec(vec)] *)
Definition print_vec {L T} `{VecType T} (vec : list T) : M L unit :=
  for_each (fun x => put (vt_show x) ;; put " ") vec.

(** [generate_pointer<T>()]: one heap value, owned by the caller; nothing
    is written and the generator is not used. *)
Definition generate_pointer {L} : M L unit := ret tt.

(** [compare_values(vecA, vecB)].  The two vectors are taken by reference:
    the computation returns them as they are when the routine ends. *)
Definition compare_values {L T} `{VecType T} (vecA vecB : list T)
  : M L (list T * list T) :=
  let vecAIterator := max_element vecA in
  let vecBIterator := max_element vecB in
  endl ;; put "Max element of Vector A: " ;;
  a <- deref vecA vecAIterator ;; put (vt_show a) ;;
  put " at element: " ;; put (show_int (distance 0 vecAIterator)) ;; endl ;;
  endl ;; put "Max element of Vector B: " ;;
  b <- deref vecB vecBIterator ;; put (vt_show b) ;;
  put " at element: " ;; put (show_int (distance 0 vecBIterator)) ;; endl ;;
  ret (vecA, vecB).

(** The lambda [multiplyByFive]. *)
Definition multiplyByFive {T} `{VecType T} (someVal : T) : T :=
  vt_times someVal 5.

(** [generate_constexpr_lambda(vec)].  The vector is taken by reference:
    the computation returns it as it is when the routine ends. *)
Definition generate_constexpr_lambda {L T} `{VecType T} (vec : list T)
  : M L (list T) :=
  put (nl +:+ "Values in vector before transforming: " +:+ nl) ;;
  print_vec vec ;;
  let vec := transform multiplyByFive vec in
  put (nl +:+ "Values in vector after transforming: " +:+ nl) ;;
  print_vec vec ;;
  endl ;;
  ret vec.

(** [stringview_func()] *)
Definition contents : list string :=
  ["Some words"; "More words"; "Another string!"].

Fixpoint stringview_loop {L} (i : nat) (count : nat) : M L unit :=
  match count with
  | O => ret tt
  | S count' =>
      endl ;; put (default EmptyString (contents !! i)) ;;
      stringview_loop (S i) count'
  end.

Definition stringview_func {L} : M L unit :=
  put (nl +:+ "String View tester: " +:+ nl) ;;
  stringview_loop 0 3.

(** [build_arrays()] builds two arrays and drops them. *)
Definition build_arrays {L} : M L unit := ret tt.

(** [sum_numbers(values...)]: the fold [(values + ...)], which associates
    to the right; the pack has at least one element (an empty pack does
    not compile), here [v] followed by [vs]. *)
Fixpoint sum_numbers (v : Z) (vs : list Z) : Z :=
  match vs with
  | [] => v
  | v' :: vs' => int_add v (sum_numbers v' vs')
  end.

(** [bindings_example()] builds a tuple, binds its three parts and builds
    a second tuple from them; nothing is written. *)
Definition bindings_example {L} : M L unit := ret tt.

Record someObj : Type := { memA : Z; memB : ascii }.

Definition createObj : someObj := {| memA := 5; memB := "C"%char |}.

(** [operator<<] on a [char] *)
Definition show_char (c : ascii) : string := String c EmptyString.

(** The structured binding [auto [first, second] = obj]. *)
Definition bind2 (obj : someObj) : Z * ascii := (memA obj, memB obj).

(** [bindings_example_2()] *)
Definition bindings_example_2 {L} : M L unit :=
  let '(first, second) := bind2 createObj in
  put (nl +:+ "Class contains: ") ;; endl ;;
  put (show_int first) ;; put " " ;; put (show_char second) ;; endl.

(** [if_init()] *)
Definition if_init {L} : M L unit :=
  endl ;;
  let '(first, second) := bind2 createObj in
  if negb (first =? 6)
  then put "Value was not 6" ;; endl
  else put "Value was 6" ;; endl.

(** [if_constexpr_func<T>(ptrCheck)]: the branch is chosen by the type
    alone.  The value it returns is not used by the program. *)
Definition if_constexpr_func {L} (is_pointer_v : bool) : M L unit :=
  if is_pointer_v
  then put (nl +:+ "is a pointer!" +:+ nl)
  else put (nl +:+ "is not a pointer!" +:+ nl).

(** The two [foo] of the nested namespaces. *)
Module A.
Module B.
Definition foo : string := "I am a B foo!".
End B.

Definition foo : string := "I am an A foo!".
End A.

(** A call of a function that returns a string and touches nothing. *)
Definition call {L} (f : string) : M L string := ret f.

(** [printFoos()] *)
Definition printFoos {L} : M L unit :=
  endl ;; a <- call A.foo ;; put a ;; endl ;;
  endl ;; b <- call A.B.foo ;; put b ;; endl.

(** [main()] *)
Definition main {L} : M L unit :=
  generate_pointer ;;
  testVectorA <- generate_vector 10 100 ;;
  testVectorB <- generate_vector 10 100 ;;
  vectors <- compare_values testVectorA testVectorB ;;
  let '(testVectorA, testVectorB) := vectors in
  testVectorA <- generate_constexpr_lambda testVectorA ;;
  stringview_func ;;
  build_arrays ;;
  endl ;; put (show_int (sum_numbers 4 [6; 33; 7; 3; 4; 5])) ;; endl ;;
  bindings_example ;;
  bindings_example_2 ;;
  if_init ;;
  if_constexpr_func true ;;
  printFoos.

(** A run of the program from a given state of the generator, and the run
    of a process as it starts: [main] never calls [srand], so the
    generator is in its default state. *)
Definition run_from (L : RandLib) (s : rstate L) : result string :=
  match main (World EmptyString s) with
  | Ok (_, w) => Ok (cout w)
  | Fail e => Fail e
  end.

Definition run (L : RandLib) : result string := run_from L (rand_default L).

(** ** Observing the output *)

Definition is_nl (c : ascii) : bool := Ascii.eqb c "010"%char.

(** The lines of a text: the pieces between two line feeds. *)
Fixpoint lines (s : string) : list string :=
  match s with
  | EmptyString => [EmptyString]
  | String c s' =>
      if is_nl c then EmptyString :: lines s'
      else match lines s' with
           | l :: ls => String c l :: ls
           | [] => [String c EmptyString]
           end
  end.

Fixpoint no_nl (s : string) : bool :=
  match s with
  | EmptyString => true
  | String c s' => negb (is_nl c) && no_nl s'
  end.

(** [prefix_of p s]: [s] starts with [p]; [occurs p s]: [p] is found
    somewhere in [s]. *)
Fixpoint prefix_of (p s : string) : bool :=
  match p, s with
  | EmptyString, _ => true
  | String a p', String b s' => Ascii.eqb a b && prefix_of p' s'
  | String _ _, EmptyString => false
  end.

Fixpoint occurs (p s : string) : bool :=
  prefix_of p s ||
  match s with
  | EmptyString => false
  | String _ s' => occurs p s'
  end.

(** ** A generator to run the program with

    The portable generator the C standard prints as an example of [rand]
    and [srand] (ISO C, 7.22.2.2), with [RAND_MAX] 32767 and the state of
    a process that never called [srand]: [next = 1]. *)
Definition iso_rand (next : Z) : Z * Z :=
  let next' := (next * 1103515245 + 12345) mod 2 ^ 32 in
  ((next' / 65536) mod 32768, next').

Definition IsoRand : RandLib := {|
  rstate := Z;
  RAND_MAX := 32767;
  rand_default := 1;
  rand_step := iso_rand;
  RAND_MAX_range := ltac:(abstract (unfold INT_MAX; lia));
  rand_step_range :=
    ltac:(abstract
            (intros s; unfold iso_rand; cbn [fst];
             pose proof (Z.mod_pos_bound
                           (((s * 1103515245 + 12345) mod 2 ^ 32) / 65536) 32768);
             lia))
|}.

(** A process that has written nothing, with the generator at [next]. *)
Definition iso_world (next : Z) : world IsoRand :=
  @World IsoRand EmptyString next.

(** ** What the specification compares the code with *)

(** The sum of the arguments taken from left to right. *)
Definition sum_left_to_right (v : Z) (vs : list Z) : Z :=
  fold_left int_add vs v.

(** The sum of the arguments as numbers, without the bounds of [int]. *)
Definition sum_exact (v : Z) (vs : list Z) : Z := v + foldr Z.add 0 vs.

(** A transform that multiplies by 25. *)
Definition multiplyByTwentyFive (someVal : Z) : Z := int_mul someVal 25.

(** [x] at position [i] is the maximum of [v], and the first one: no
    element is above [x], and every element before [i] is below it. *)
Definition first_maximum {T} `{VecType T} (v : list T) (i : nat) (x : T) : Prop :=
  v !! i = Some x /\
  (forall j y, v !! j = Some y -> vt_less x y = false) /\
  (forall j y, (j < i)%nat -> v !! j = Some y -> vt_less y x = true).

(** What holds each time the loop of [max_element] tests its condition:
    [a], at [largest], is the first maximum of the elements before
    [first]. *)
Definition largest_so_far {T} `{VecType T} (v : list T) (largest first : nat)
    (a : T) : Prop :=
  v !! largest = Some a /\
  (forall j y, (j < first)%nat -> v !! j = Some y -> vt_less a y = false) /\
  (forall j y, (j < largest)%nat -> v !! j = Some y -> vt_less y a = true).

(** The requirement [max_element] puts on [operator<]: a strict weak
    order. *)
Class StrictWeakOrder (T : Type) `{VecType T} : Prop := {
  less_irrefl : forall x, vt_less x x = false;
  less_trans : forall x y z,
    vt_less x y = true -> vt_less y z = true -> vt_less x z = true;
  less_cotrans : forall x y z,
    vt_less x y = true -> vt_less x z = true \/ vt_less z y = true
}.

(** The two lines [compare_values] writes, for the maximum [x] at
    position [i], and the text around them. *)
Definition line_A {T} `{VecType T} (x : T) (i : nat) : string :=
  "Max element of Vector A: " +:+ vt_show x
     +:+ " at element: " +:+ show_int (Z.of_nat i).

Definition line_B {T} `{VecType T} (x : T) (i : nat) : string :=
  "Max element of Vector B: " +:+ vt_show x
     +:+ " at element: " +:+ show_int (Z.of_nat i).

Definition report_A {T} `{VecType T} (x : T) (i : nat) : string :=
  nl +:+ line_A x i +:+ nl.

Definition report_B {T} `{VecType T} (x : T) (i : nat) : string :=
  nl +:+ line_B x i +:+ nl.

(** The text [print_vec] writes for a vector. *)
Fixpoint show_vec {T} `{VecType T} (vec : list T) : string :=
  match vec with
  | [] => EmptyString
  | x :: vec' => vt_show x +:+ " " +:+ show_vec vec'
  end.

(** [m] returns, appends [text] to [cout] and changes nothing else. *)
Definition writes {L} (m : M L unit) (text : string) : Prop :=
  forall w : world L, m w = Ok (tt, World (cout w +:+ text) (rng w)).

(** The text [main] writes after the two vectors have been shown. *)
Definition fixed_tail : string :=
  nl +:+ "String View tester: " +:+ nl
     +:+ nl +:+ "Some words"
     +:+ nl +:+ "More words"
     +:+ nl +:+ "Another string!"
     +:+ nl +:+ "62" +:+ nl
     +:+ nl +:+ "Class contains: " +:+ nl
     +:+ "5 C" +:+ nl
     +:+ nl +:+ "Value was not 6" +:+ nl
     +:+ nl +:+ "is a pointer!" +:+ nl
     +:+ nl +:+ "I am an A foo!" +:+ nl
     +:+ nl +:+ "I am a B foo!" +:+ nl.

(** The lines of the output of [main]: four of them show values of the
    generator, the others are fixed. *)
Definition output_lines (maxA maxB before after : string) : list string :=
  [ EmptyString; maxA;
    EmptyString; maxB;
    EmptyString; "Values in vector before transforming: "; before;
    "Values in vector after transforming: "; after;
    EmptyString; "String View tester: ";
    EmptyString; "Some words"; "More words"; "Another string!"; "62";
    EmptyString; "Class contains: "; "5 C";
    EmptyString; "Value was not 6";
    EmptyString; "is a pointer!";
    EmptyString; "I am an A foo!";
    EmptyString; "I am a B foo!";
    EmptyString ].

(** The positions, counted from zero, of the four lines that show values
    of the generator. *)
Definition random_lines : list nat := [1; 3; 6; 8]%nat.

(** The claim that two runs of the program show different values of the
    generator: the lines at [random_lines] of two runs differ. *)
Definition runs_differ (L : RandLib) : Prop :=
  forall o1 o2, run L = Ok o1 -> run L = Ok o2 ->
    exists i, i ∈ random_lines /\ lines o1 !! i <> lines o2 !! i.

(** The first [n] values [rand()] returns from the state [s] of the
    generator, and the state of the generator after them. *)
Fixpoint rand_values (L : RandLib) (s : rstate L) (n : nat) : list Z :=
  match n with
  | O => []
  | S n' => fst (rand_step L s) :: rand_values L (snd (rand_step L s)) n'
  end.

Fixpoint rand_after (L : RandLib) (s : rstate L) (n : nat) : rstate L :=
  match n with
  | O => s
  | S n' => rand_after L (snd (rand_step L s)) n'
  end.

(** The text [main] writes when its two vectors are [vecA] and [vecB]. *)
Definition main_text (vecA vecB : list Z) : string :=
  report_A (default 0 (vecA !! max_element vecA)) (max_element vecA)
  +:+ report_B (default 0 (vecB !! max_element vecB)) (max_element vecB)
  +:+ nl +:+ "Values in vector before transforming: " +:+ nl
  +:+ show_vec vecA
  +:+ nl +:+ "Values in vector after transforming: " +:+ nl
  +:+ show_vec (multiplyByFive <$> vecA)
  +:+ nl +:+ fixed_tail.

(** Reading a listing back: the pieces of a text that end with a space,
    and the [int] a piece of decimal text stands for. *)
Definition is_space (c : ascii) : bool := Ascii.eqb c " "%char.

Fixpoint fields (s : string) : list string :=
  match s with
  | EmptyString => []
  | String c s' =>
      if is_space c then EmptyString :: fields s'
      else match fields s' with
           | f :: fs => String c f :: fs
           | [] => []
           end
  end.

Fixpoint no_space (s : string) : bool :=
  match s with
  | EmptyString => true
  | String c s' => negb (is_space c) && no_space s'
  end.

Definition read_int (s : string) : option Z :=
  option_map Z.of_int (NilZero.int_of_string s).

(** A second generator to run the program with: it counts its calls and
    returns the count modulo 32768. *)
Definition count_rand (n : Z) : Z * Z := (n mod 32768, n + 1).

Definition CountRand : RandLib := {|
  rstate := Z;
  RAND_MAX := 32767;
  rand_default := 1;
  rand_step := count_rand;
  RAND_MAX_range := ltac:(abstract (unfold INT_MAX; lia));
  rand_step_range :=
    ltac:(abstract
            (intros n; unfold count_rand; cbn [fst];
             pose proof (Z.mod_pos_bound n 32768); lia))
|}.

(** * Properties *)

(** ** Arithmetic of [int] *)

Lemma wrap_int_range z : int_range (wrap_int z).
Proof.
  unfold int_range, wrap_int, INT_MIN, INT_MAX.
  pose proof (Z.mod_pos_bound (z + 2 ^ 31) (2 ^ 32)). lia.
Qed.

Lemma wrap_int_id z : int_range z -> wrap_int z = z.
Proof.
  unfold int_range, wrap_int, INT_MIN, INT_MAX. intros Hz.
  rewrite Z.mod_small; lia.
Qed.

Lemma wrap_int_congr a b :
  a mod 2 ^ 32 = b mod 2 ^ 32 -> wrap_int a = wrap_int b.
Proof.
  intros Hab. unfold wrap_int. f_equal.
  rewrite (Z.add_mod a), (Z.add_mod b), Hab by lia. reflexivity.
Qed.

Lemma wrap_int_mod z : wrap_int z mod 2 ^ 32 = z mod 2 ^ 32.
Proof.
  unfold wrap_int.
  rewrite Zminus_mod_idemp_l.
  replace (z + 2 ^ 31 - 2 ^ 31) with z by lia. reflexivity.
Qed.

Lemma int_add_wrap_r a b : int_add a (wrap_int b) = int_add a b.
Proof.
  apply wrap_int_congr.
  rewrite Z.add_mod, wrap_int_mod, <- Z.add_mod by lia. reflexivity.
Qed.

Lemma int_add_wrap_l a b : int_add (wrap_int a) b = int_add a b.
Proof.
  apply wrap_int_congr.
  rewrite Z.add_mod, wrap_int_mod, <- Z.add_mod by lia. reflexivity.
Qed.

Lemma int_mul_wrap_l a b : int_mul (wrap_int a) b = int_mul a b.
Proof.
  apply wrap_int_congr.
  rewrite Z.mul_mod, wrap_int_mod, <- Z.mul_mod by lia. reflexivity.
Qed.

Lemma int_add_assoc a b c : int_add a (int_add b c) = int_add (int_add a b) c.
Proof.
  change (int_add b c) with (wrap_int (b + c)).
  change (int_add a b) with (wrap_int (a + b)).
  rewrite int_add_wrap_r, int_add_wrap_l.
  unfold int_add. f_equal. lia.
Qed.

(** ** [sum_numbers] *)

Lemma sum_numbers_shift vs : forall a v,
  int_add a (sum_numbers v vs) = fold_left int_add vs (int_add a v).
Proof.
  induction vs as [|v' vs IH]; intros a v; cbn [sum_numbers fold_left].
  - reflexivity.
  - rewrite int_add_assoc. apply IH.
Qed.

Lemma sum_numbers_wrap vs : forall v,
  wrap_int (sum_numbers v vs) = wrap_int (sum_exact v vs).
Proof.
  induction vs as [|v' vs IH]; intros v; unfold sum_exact in *;
    cbn [sum_numbers foldr].
  - f_equal. lia.
  - unfold int_add at 1. rewrite (wrap_int_id (wrap_int _)) by apply wrap_int_range.
    fold (int_add v (sum_numbers v' vs)).
    rewrite <- int_add_wrap_r, IH, int_add_wrap_r. reflexivity.
Qed.

Lemma sum_numbers_range vs : forall v,
  int_range v -> int_range (sum_numbers v vs).
Proof.
  destruct vs as [|v' vs]; intros v Hv; cbn [sum_numbers].
  - exact Hv.
  - apply wrap_int_range.
Qed.

(** C1. [sum_numbers] returns the sum of its arguments taken from left to
    right (the fold of the code associates to the right; the two agree
    because the addition of [int] is associative); when the sum of the
    arguments fits an [int] this is their sum as numbers; and
    [sum_numbers(4, 6, 33, 7, 3, 4, 5)] is 62. *)
Theorem sum_numbers_left_to_right :
  (forall v vs, sum_numbers v vs = sum_left_to_right v vs) /\
  (forall v vs, int_range v -> int_range (sum_exact v vs) ->
                sum_numbers v vs = sum_exact v vs) /\
  sum_numbers 4 [6; 33; 7; 3; 4; 5] = 62.
Proof.
  split; [|split].
  - intros v [|v' vs]; unfold sum_left_to_right; cbn [sum_numbers fold_left].
    + reflexivity.
    + apply sum_numbers_shift.
  - intros v vs Hv Hsum.
    rewrite <- (wrap_int_id (sum_numbers v vs)) by (apply sum_numbers_range, Hv).
    rewrite sum_numbers_wrap. apply wrap_int_id, Hsum.
  - reflexivity.
Qed.

Lemma sum_numbers_left_to_right_witness :
  sum_numbers 2147483647 [1; -1] = 2147483647.
Proof.
  destruct sum_numbers_left_to_right as [_ [Hexact _]].
  rewrite Hexact.
  - reflexivity.
  - unfold int_range, INT_MIN, INT_MAX. lia.
  - unfold int_range, INT_MIN, INT_MAX, sum_exact. cbn. lia.
Defined.

(** ** The monad *)

Section Monad.
Context {L : RandLib}.

Lemma bind_ok {A B} (m : M L A) (k : A -> M L B) w a w' :
  m w = Ok (a, w') -> bind m k w = k a w'.
Proof. unfold bind. intros ->. reflexivity. Qed.

Lemma bind_fail {A B} (m : M L A) (k : A -> M L B) w e :
  m w = Fail e -> bind m k w = Fail e.
Proof. unfold bind. intros ->. reflexivity. Qed.

Lemma put_ok s (w : world L) : put s w = Ok (tt, World (cout w +:+ s) (rng w)).
Proof. reflexivity. Qed.

Lemma rand_ok (w : world L) :
  exists r w', rand w = Ok (r, w') /\ 0 <= r <= RAND_MAX L /\ cout w' = cout w.
Proof.
  unfold rand. pose proof (rand_step_range L (rng w)) as Hr.
  destruct (rand_step L (rng w)) as [r s']. cbn [fst] in Hr.
  exists r, (World (cout w) s'). auto.
Qed.
End Monad.

(** ** [generate_vector] *)

Section Generate.
Context {L : RandLib}.

Lemma int_rem_ok r b :
  b <> 0 -> 0 <= r -> int_rem r b = Ok (Z.rem r b).
Proof.
  intros Hb Hr. unfold int_rem.
  destruct (Z.eqb_spec b 0) as [|_]; [contradiction|].
  destruct (Z.eqb_spec r INT_MIN) as [Hmin|_]; [|reflexivity].
  unfold INT_MIN in Hmin. lia.
Qed.

Lemma next_element_ok rangeVal (w : world L) :
  rangeVal <> 0 ->
  exists r w', next_element rangeVal w = Ok (Z.rem r rangeVal, w') /\
               0 <= r /\ cout w' = cout w.
Proof.
  intros Hb. destruct (rand_ok w) as (r & w' & Hrand & Hr & Hout).
  exists r, w'. unfold next_element.
  rewrite (bind_ok _ _ _ _ _ Hrand). unfold lift.
  rewrite int_rem_ok by lia. auto with zarith.
Qed.

Lemma next_element_zero (w : world L) :
  next_element 0 w = Fail ModuloByZero.
Proof.
  destruct (rand_ok w) as (r & w' & Hrand & _).
  unfold next_element. rewrite (bind_ok _ _ _ _ _ Hrand). reflexivity.
Qed.

Lemma generate_loop_ok {A} (P : A -> Prop) (g : M L A) :
  (forall w, exists x w', g w = Ok (x, w') /\ P x /\ cout w' = cout w) ->
  forall count first (v : list A) w,
    (first + count)%nat = length v ->
    Forall P (take first v) ->
    exists v' w', generate_loop g first count v w = Ok (v', w') /\
                  length v' = length v /\ Forall P v' /\ cout w' = cout w.
Proof.
  intros Hg. induction count as [|count IH]; intros first v w Hlen Hdone.
  - exists v, w. cbn [generate_loop]. split; [reflexivity|].
    rewrite take_ge in Hdone by lia. auto.
  - destruct (Hg w) as (x & w1 & Hgw & Hx & Hout1).
    cbn [generate_loop]. rewrite (bind_ok _ _ _ _ _ Hgw).
    destruct (IH (S first) (<[first := x]> v) w1) as (v' & w' & Hloop & Hl & HP & Hout).
    + rewrite length_insert. lia.
    + assert (Hat : <[first := x]> v !! first = Some x)
        by (apply list_lookup_insert_eq; lia).
      rewrite (take_S_r _ _ _ Hat), take_insert_ge by lia.
      apply Forall_app. split; [exact Hdone|]. constructor; [exact Hx|constructor].
    + exists v', w'. rewrite length_insert in Hl.
      split; [exact Hloop|]. split; [exact Hl|]. split; [exact HP|]. congruence.
Qed.
End Generate.

Section GenerateVector.
Context {L : RandLib}.

Lemma generate_vector_ok sizeVal rangeVal (w : world L) (P : Z -> Prop) :
  0 <= sizeVal -> rangeVal <> 0 ->
  (forall r, 0 <= r -> P (Z.rem r rangeVal)) ->
  exists v w', generate_vector sizeVal rangeVal w = Ok (v, w') /\
               length v = Z.to_nat sizeVal /\ Forall P v /\ cout w' = cout w.
Proof.
  intros Hsize Hrange HP. unfold generate_vector, vector_int, generate.
  destruct (Z.ltb_spec sizeVal 0) as [|_]; [lia|].
  rewrite (bind_ok _ _ w (replicate (Z.to_nat sizeVal) 0) w) by reflexivity.
  assert (Hg : forall w0 : world L, exists x w1,
             next_element rangeVal w0 = Ok (x, w1) /\ P x /\ cout w1 = cout w0).
  { intros w0.
    destruct (next_element_ok rangeVal w0 Hrange) as (r & w1 & H1 & Hr & Ho).
    exists (Z.rem r rangeVal), w1. auto. }
  destruct (generate_loop_ok P _ Hg (length (replicate (Z.to_nat sizeVal) 0))
              0%nat (replicate (Z.to_nat sizeVal) 0) w)
    as (v & w' & Hloop & Hlen & Hall & Hout).
  - reflexivity.
  - constructor.
  - exists v, w'. rewrite length_replicate in Hlen. auto.
Qed.

Lemma generate_vector_zero sizeVal (w : world L) :
  0 < sizeVal -> generate_vector sizeVal 0 w = Fail ModuloByZero.
Proof.
  intros Hsize. unfold generate_vector, vector_int, generate.
  destruct (Z.ltb_spec sizeVal 0) as [|_]; [lia|].
  rewrite (bind_ok _ _ w (replicate (Z.to_nat sizeVal) 0) w) by reflexivity.
  rewrite length_replicate.
  destruct (Z.to_nat sizeVal) as [|n] eqn:Hn; [lia|].
  cbn [generate_loop]. apply bind_fail, next_element_zero.
Qed.

(** C4. For a length that is not negative and a bound above zero,
    [generate_vector] returns a vector of exactly that many elements,
    each at least 0 and below the bound (and writes nothing). *)
Theorem generate_vector_length_range sizeVal rangeVal (w : world L) :
  0 <= sizeVal -> 0 < rangeVal ->
  exists v w', generate_vector sizeVal rangeVal w = Ok (v, w') /\
               Z.of_nat (length v) = sizeVal /\
               Forall (fun x => 0 <= x < rangeVal) v /\
               cout w' = cout w.
Proof.
  intros Hsize Hrange.
  destruct (generate_vector_ok sizeVal rangeVal w (fun x => 0 <= x < rangeVal))
    as (v & w' & Hgen & Hlen & Hall & Hout); [lia | lia | |].
  - intros r Hr. apply Z.rem_bound_pos; lia.
  - exists v, w'. rewrite Hlen, Z2Nat.id by lia. auto.
Qed.

(** C5. [generate_vector] fails on a modulo by zero exactly when the
    bound is zero and an element is generated (the length is above
    zero); with a bound above zero the modulo is defined for every value
    of [rand()] and, for a length that is not negative, the generator
    returns a vector. *)
Theorem generate_vector_modulo_by_zero sizeVal rangeVal (w : world L) :
  (generate_vector sizeVal rangeVal w = Fail ModuloByZero <->
     rangeVal = 0 /\ 0 < sizeVal) /\
  (0 < rangeVal -> forall r, int_rem r rangeVal = Ok (Z.rem r rangeVal)) /\
  (0 < rangeVal -> 0 <= sizeVal ->
     exists v w', generate_vector sizeVal rangeVal w = Ok (v, w')).
Proof.
  split; [split|split].
  - intros Hfail.
    destruct (Z.ltb_spec sizeVal 0) as [Hneg|Hpos].
    + unfold generate_vector, vector_int in Hfail.
      destruct (Z.ltb_spec sizeVal 0) as [_|]; [|lia].
      cbn in Hfail. discriminate.
    + destruct (Z.eq_dec rangeVal 0) as [->|Hne].
      * split; [reflexivity|].
        destruct (Z.eq_dec sizeVal 0) as [->|]; [|lia].
        cbn in Hfail. discriminate.
      * destruct (generate_vector_ok sizeVal rangeVal w (fun _ => True))
          as (v & w' & Hgen & _); auto.
        rewrite Hgen in Hfail. discriminate.
  - intros [-> Hsize]. apply generate_vector_zero, Hsize.
  - intros Hrange r. unfold int_rem.
    destruct (Z.eqb_spec rangeVal 0) as [|_]; [lia|].
    destruct (Z.eqb_spec rangeVal (-1)) as [|_]; [lia|].
    rewrite andb_false_r. reflexivity.
  - intros Hrange Hsize.
    destruct (generate_vector_ok sizeVal rangeVal w (fun _ => True))
      as (v & w' & Hgen & _); [lia | lia | auto |].
    exists v, w'. exact Hgen.
Qed.
End GenerateVector.

Lemma generate_vector_length_range_witness :
  exists v w', generate_vector (L := IsoRand) 10 100 (iso_world 1) = Ok (v, w') /\
               Z.of_nat (length v) = 10 /\
               Forall (fun x => 0 <= x < 100) v /\
               cout w' = EmptyString.
Proof. apply (@generate_vector_length_range IsoRand 10 100 (iso_world 1)); lia. Defined.

Lemma generate_vector_modulo_by_zero_witness :
  generate_vector (L := IsoRand) 3 0 (iso_world 1) = Fail ModuloByZero /\
  int_rem 16838 100 = Ok 38 /\
  exists v w', generate_vector (L := IsoRand) 10 100 (iso_world 1) = Ok (v, w').
Proof.
  split; [|split].
  - apply (@generate_vector_modulo_by_zero IsoRand 3 0 (iso_world 1)). lia.
  - apply (proj1 (proj2 (@generate_vector_modulo_by_zero IsoRand 10 100 (iso_world 1)))).
    lia.
  - apply (proj2 (proj2 (@generate_vector_modulo_by_zero IsoRand 10 100 (iso_world 1))));
      lia.
Defined.

Example generate_vector_iso :
  generate_vector (L := IsoRand) 10 100 (iso_world 1)
  = Ok ([38; 58; 13; 15; 51; 27; 10; 19; 12; 86], iso_world 267834847).
Proof. reflexivity. Qed.

Example generate_vector_negative_length :
  generate_vector (L := IsoRand) (-1) 100 (iso_world 1) = Fail LengthError.
Proof. reflexivity. Qed.

(** ** Strings *)

Lemma string_app_assoc (s t u : string) : (s +:+ t) +:+ u = s +:+ (t +:+ u).
Proof.
  induction s as [|c s IH]; [reflexivity|].
  change (String c ((s +:+ t) +:+ u) = String c (s +:+ (t +:+ u))).
  rewrite IH. reflexivity.
Qed.

Lemma string_app_nil_r (s : string) : s +:+ EmptyString = s.
Proof.
  induction s as [|c s IH]; [reflexivity|].
  change (String c (s +:+ EmptyString) = String c s). rewrite IH. reflexivity.
Qed.

(** ** [transform] *)

Lemma transform_loop_map {A} (op : A -> A) count : forall first (v : list A),
  (first + count)%nat = length v ->
  transform_loop op first count v = take first v ++ (op <$> drop first v).
Proof.
  induction count as [|count IH]; intros first v Hlen; cbn [transform_loop].
  - rewrite take_ge, drop_ge by lia. cbn. rewrite app_nil_r. reflexivity.
  - destruct (lookup_lt_is_Some_2 v first) as [x Hx]; [lia|].
    rewrite Hx, IH by (rewrite length_insert; lia).
    assert (Hat : <[first := op x]> v !! first = Some (op x))
      by (apply list_lookup_insert_eq; lia).
    rewrite (take_S_r _ _ _ Hat), take_insert_ge by lia.
    rewrite drop_insert_lt by lia.
    rewrite (drop_S _ _ _ Hx), fmap_cons.
    rewrite <- app_assoc. reflexivity.
Qed.

Lemma transform_map {A} (op : A -> A) (v : list A) : transform op v = op <$> v.
Proof.
  unfold transform. rewrite transform_loop_map by reflexivity. reflexivity.
Qed.

(** ** [print_vec] and [generate_constexpr_lambda] *)

Section Transform.
Context {L : RandLib} {T : Type} `{VecType T}.

Lemma print_vec_ok (vec : list T) : forall w : world L,
  print_vec vec w = Ok (tt, World (cout w +:+ show_vec vec) (rng w)).
Proof.
  unfold print_vec.
  induction vec as [|x vec IH]; intros w; cbn [for_each show_vec].
  - unfold ret. rewrite string_app_nil_r. destruct w; reflexivity.
  - unfold bind at 1 2. rewrite !put_ok, IH. cbn [cout rng].
    rewrite !string_app_assoc. reflexivity.
Qed.

Lemma generate_constexpr_lambda_ok (vec : list T) (w : world L) :
  generate_constexpr_lambda vec w
  = Ok (multiplyByFive <$> vec,
        World (cout w
               +:+ nl +:+ "Values in vector before transforming: " +:+ nl
               +:+ show_vec vec
               +:+ nl +:+ "Values in vector after transforming: " +:+ nl
               +:+ show_vec (multiplyByFive <$> vec)
               +:+ nl)
              (rng w)).
Proof.
  unfold generate_constexpr_lambda, endl.
  rewrite transform_map.
  unfold bind. rewrite !put_ok, print_vec_ok. cbn [cout rng].
  rewrite put_ok, print_vec_ok. cbn [cout rng]. rewrite put_ok.
  unfold ret. cbn [cout rng]. rewrite !string_app_assoc. reflexivity.
Qed.
End Transform.

Lemma multiplyByFive_twice (x : Z) :
  multiplyByFive (multiplyByFive x) = multiplyByTwentyFive x.
Proof.
  unfold multiplyByFive, multiplyByTwentyFive. cbn [vt_times int_VecType].
  change (int_mul x 5) with (wrap_int (x * 5)).
  rewrite int_mul_wrap_l. unfold int_mul. f_equal. lia.
Qed.

Section TransformInt.
Context {L : RandLib}.

(** C6. [generate_constexpr_lambda] returns: its vector then has the
    length it had, and every element is the product of its previous
    value and 5 in [int], which is 5 times the previous value whenever
    that fits an [int]; from [1, 2, 3] it makes [5, 10, 15]. *)
Theorem generate_constexpr_lambda_times_five (vec : list Z) (w : world L) :
  exists vec' w',
    generate_constexpr_lambda vec w = Ok (vec', w') /\
    length vec' = length vec /\
    (forall i x, vec !! i = Some x -> vec' !! i = Some (int_mul x 5)) /\
    (forall i x, vec !! i = Some x -> int_range (5 * x) ->
                 vec' !! i = Some (5 * x)) /\
    (vec = [1; 2; 3] -> vec' = [5; 10; 15]).
Proof.
  eexists _, _. split; [apply generate_constexpr_lambda_ok|].
  split; [apply length_fmap|]. split; [|split].
  - intros i x Hx. rewrite list_lookup_fmap, Hx. reflexivity.
  - intros i x Hx Hfit. rewrite list_lookup_fmap, Hx. cbn. f_equal.
    unfold multiplyByFive. cbn [vt_times int_VecType]. unfold int_mul.
    rewrite Z.mul_comm. apply wrap_int_id, Hfit.
  - intros ->. reflexivity.
Qed.

(** C7. Running [generate_constexpr_lambda] twice leaves the vector that
    one transform multiplying by 25 makes; from [1, 2, 3] it leaves
    [25, 50, 75]. *)
Theorem generate_constexpr_lambda_twice (vec : list Z) (w : world L) :
  exists vec1 w1 vec2 w2,
    generate_constexpr_lambda vec w = Ok (vec1, w1) /\
    generate_constexpr_lambda vec1 w1 = Ok (vec2, w2) /\
    vec2 = transform multiplyByTwentyFive vec /\
    (vec = [1; 2; 3] -> vec2 = [25; 50; 75]).
Proof.
  eexists _, _, _, _.
  split; [apply generate_constexpr_lambda_ok|].
  split; [apply generate_constexpr_lambda_ok|].
  assert (Heq : multiplyByFive <$> (multiplyByFive <$> vec)
                = transform multiplyByTwentyFive vec).
  { rewrite transform_map, <- list_fmap_compose. apply list_fmap_ext.
    intros i x _. apply multiplyByFive_twice. }
  split; [exact Heq|].
  intros ->. rewrite Heq. reflexivity.
Qed.
End TransformInt.

Lemma generate_constexpr_lambda_times_five_witness :
  exists vec' w',
    generate_constexpr_lambda [1; 2; 3] (iso_world 1) = Ok (vec', w') /\
    vec' !! 1%nat = Some 10 /\ vec' = [5; 10; 15].
Proof.
  destruct (@generate_constexpr_lambda_times_five IsoRand [1; 2; 3] (iso_world 1))
    as (vec' & w' & Hrun & _ & _ & Hexact & Hlit).
  exists vec', w'. split; [exact Hrun|]. split.
  - apply (Hexact 1%nat 2); [reflexivity|].
    unfold int_range, INT_MIN, INT_MAX. lia.
  - apply Hlit. reflexivity.
Defined.

Lemma generate_constexpr_lambda_twice_witness :
  exists vec1 w1 vec2 w2,
    generate_constexpr_lambda [1; 2; 3] (iso_world 1) = Ok (vec1, w1) /\
    generate_constexpr_lambda vec1 w1 = Ok (vec2, w2) /\
    vec2 = [25; 50; 75].
Proof.
  destruct (@generate_constexpr_lambda_twice IsoRand [1; 2; 3] (iso_world 1))
    as (vec1 & w1 & vec2 & w2 & Hrun1 & Hrun2 & _ & Hlit).
  exists vec1, w1, vec2, w2. split; [exact Hrun1|]. split; [exact Hrun2|].
  apply Hlit. reflexivity.
Defined.

Example transform_twice_wraps :
  transform multiplyByFive (transform multiplyByFive [1073741824])
  = transform multiplyByTwentyFive [1073741824].
Proof. reflexivity. Qed.

(** ** [max_element] and [compare_values] *)

#[export] Instance int_StrictWeakOrder : StrictWeakOrder Z.
Proof.
  split; cbn [vt_less int_VecType].
  - intros x. apply Z.ltb_irrefl.
  - intros x y z Hxy Hyz. apply Z.ltb_lt in Hxy, Hyz. apply Z.ltb_lt. lia.
  - intros x y z Hxy. apply Z.ltb_lt in Hxy.
    destruct (Z.ltb_spec x z); [left; reflexivity|right; apply Z.ltb_lt; lia].
Qed.

Section MaxElementPosition.
Context {T : Type} `{VecType T}.

Lemma max_element_loop_lt (v : list T) count : forall largest first,
  (first + count)%nat = length v -> (largest < first)%nat ->
  (max_element_loop v largest first count < length v)%nat.
Proof.
  induction count as [|count IH]; intros largest first Hlen Hlt;
    cbn [max_element_loop]; [lia|].
  destruct (v !! largest) as [a|]; [|lia].
  destruct (v !! first) as [b|]; [|lia].
  apply IH; [lia|]. destruct (vt_less a b); lia.
Qed.

Lemma max_element_lt (v : list T) :
  v <> [] -> (max_element v < length v)%nat.
Proof.
  destruct v as [|x v]; [congruence|]. intros _. unfold max_element.
  apply max_element_loop_lt; cbn [length]; lia.
Qed.

Lemma max_element_empty : max_element (@nil T) = 0%nat.
Proof. reflexivity. Qed.
End MaxElementPosition.

Section MaxElement.
Context {T : Type} `{StrictWeakOrder T}.

Lemma largest_so_far_step (v : list T) largest first a b :
  (largest < first)%nat ->
  largest_so_far v largest first a -> v !! first = Some b ->
  largest_so_far v (if vt_less a b then first else largest) (S first)
                 (if vt_less a b then b else a).
Proof.
  intros Hlt (Ha & Hmax & Hfirst) Hb.
  destruct (vt_less a b) eqn:Hab; (split; [|split]).
  - exact Hb.
  - intros j y Hj Hy. destruct (decide (j = first)) as [->|Hne].
    + rewrite Hb in Hy. injection Hy as <-. apply less_irrefl.
    + destruct (vt_less b y) eqn:Hby; [|reflexivity].
      rewrite <- (Hmax j y) by (auto with lia). symmetry.
      apply (less_trans a b y); assumption.
  - intros j y Hj Hy.
    destruct (less_cotrans a b y Hab) as [Hay|Hyb]; [|exact Hyb].
    rewrite (Hmax j y) in Hay by auto. discriminate.
  - exact Ha.
  - intros j y Hj Hy. destruct (decide (j = first)) as [->|Hne].
    + rewrite Hb in Hy. injection Hy as <-. exact Hab.
    + apply (Hmax j y); auto with lia.
  - exact Hfirst.
Qed.

Lemma max_element_loop_first_maximum (v : list T) count :
  forall largest first a,
    (first + count)%nat = length v -> (largest < first)%nat ->
    largest_so_far v largest first a ->
    exists x, first_maximum v (max_element_loop v largest first count) x.
Proof.
  induction count as [|count IH]; intros largest first a Hlen Hlt Hinv;
    cbn [max_element_loop].
  - exists a. destruct Hinv as (Ha & Hmax & Hfirst).
    split; [exact Ha|]. split; [|exact Hfirst].
    intros j y Hy. apply (Hmax j y); [|exact Hy].
    apply lookup_lt_Some in Hy. lia.
  - destruct (lookup_lt_is_Some_2 v first) as [b Hb]; [lia|].
    rewrite (proj1 Hinv), Hb.
    apply (IH _ (S first) (if vt_less a b then b else a)); [lia| |].
    + destruct (vt_less a b); lia.
    + apply largest_so_far_step; assumption.
Qed.

Lemma max_element_first_maximum (v : list T) :
  v <> [] -> exists x, first_maximum v (max_element v) x.
Proof.
  destruct v as [|x0 v]; [congruence|]. intros _. unfold max_element.
  apply (max_element_loop_first_maximum _ _ 0%nat 1%nat x0).
  - cbn [length]. lia.
  - lia.
  - split; [reflexivity|]. split.
    + intros [|j] y Hj Hy; [|lia]. injection Hy as <-. apply less_irrefl.
    + intros j y Hj. lia.
Qed.
End MaxElement.

Section CompareValues.
Context {L : RandLib} {T : Type} `{VecType T}.

Lemma compare_values_ok (vecA vecB : list T) (w : world L) a b :
  vecA !! max_element vecA = Some a ->
  vecB !! max_element vecB = Some b ->
  compare_values vecA vecB w
  = Ok ((vecA, vecB),
        World (cout w +:+ report_A a (max_element vecA)
                      +:+ report_B b (max_element vecB))
              (rng w)).
Proof.
  intros Ha Hb. unfold compare_values, deref, endl, distance.
  rewrite Ha, Hb. unfold bind, ret. rewrite !put_ok. cbn [cout rng].
  unfold report_A, report_B, line_A, line_B.
  rewrite !Z.sub_0_r, !string_app_assoc.
  reflexivity.
Qed.

Lemma compare_values_empty_A (vecB : list T) (w : world L) :
  compare_values [] vecB w = Fail DerefEnd.
Proof. reflexivity. Qed.

Lemma compare_values_empty_B (vecA : list T) (w : world L) :
  vecA <> [] -> compare_values vecA [] w = Fail DerefEnd.
Proof.
  intros HA. destruct (lookup_lt_is_Some_2 vecA (max_element vecA)) as [a Ha];
    [apply max_element_lt, HA|].
  unfold compare_values, deref, endl. rewrite Ha. reflexivity.
Qed.

(** C10. For two vectors that are not empty, [compare_values] returns
    and leaves both vectors as they were: the same elements in the same
    order (and the generator as it was). *)
Theorem compare_values_leaves_vectors (vecA vecB : list T) (w : world L) :
  vecA <> [] -> vecB <> [] ->
  exists vecA' vecB' w',
    compare_values vecA vecB w = Ok ((vecA', vecB'), w') /\
    vecA' = vecA /\ vecB' = vecB /\
    length vecA' = length vecA /\ length vecB' = length vecB /\
    rng w' = rng w.
Proof.
  intros HA HB.
  destruct (lookup_lt_is_Some_2 vecA (max_element vecA)) as [a Ha];
    [apply max_element_lt, HA|].
  destruct (lookup_lt_is_Some_2 vecB (max_element vecB)) as [b Hb];
    [apply max_element_lt, HB|].
  eexists vecA, vecB, _. split; [apply (compare_values_ok _ _ _ a b Ha Hb)|].
  repeat split; reflexivity.
Qed.
End CompareValues.

Section CompareValuesMaximum.
Context {L : RandLib} {T : Type} `{StrictWeakOrder T}.

(** C3. For two vectors that are not empty (of any lengths),
    [compare_values] returns and writes, for each vector, its maximum
    and the position of that maximum counted from zero, which is the
    first position holding it; for [3, 7, 2, 7, 1] this is 7 at
    position 1. *)
Theorem compare_values_first_maximum (vecA vecB : list T) (w : world L) :
  vecA <> [] -> vecB <> [] ->
  (exists a ia b ib w',
     compare_values vecA vecB w = Ok ((vecA, vecB), w') /\
     cout w' = cout w +:+ report_A a ia +:+ report_B b ib /\
     first_maximum vecA ia a /\ first_maximum vecB ib b) /\
  (forall v : world L, exists v',
     compare_values [3; 7; 2; 7; 1] [3; 7; 2; 7; 1] v
       = Ok (([3; 7; 2; 7; 1], [3; 7; 2; 7; 1]), v') /\
     cout v' = cout v +:+ report_A 7 1 +:+ report_B 7 1 /\
     first_maximum [3; 7; 2; 7; 1] 1 7).
Proof.
  intros HA HB. split.
  - destruct (max_element_first_maximum vecA HA) as [a Ha].
    destruct (max_element_first_maximum vecB HB) as [b Hb].
    exists a, (max_element vecA), b, (max_element vecB).
    eexists. split; [apply (compare_values_ok _ _ _ a b (proj1 Ha) (proj1 Hb))|].
    split; [reflexivity|]. split; assumption.
  - intros v. eexists.
    split; [apply (compare_values_ok _ _ _ 7 7); reflexivity|].
    split; [reflexivity|].
    destruct (max_element_first_maximum [3; 7; 2; 7; 1]) as [x Hx];
      [discriminate|].
    change (max_element [3; 7; 2; 7; 1]) with 1%nat in Hx.
    destruct Hx as (Hat & Hrest). injection Hat as <-.
    split; [reflexivity|exact Hrest].
Qed.
End CompareValuesMaximum.

Lemma compare_values_first_maximum_witness :
  exists w',
    compare_values [3; 7; 2; 7; 1] [4; 4] (iso_world 1)
      = Ok (([3; 7; 2; 7; 1], [4; 4]), w') /\
    first_maximum [3; 7; 2; 7; 1] 1 7.
Proof.
  destruct (@compare_values_first_maximum IsoRand Z _ _
              [3; 7; 2; 7; 1] [4; 4] (iso_world 1))
    as [(a & ia & b & ib & w' & Hrun & _) Hlit]; [discriminate|discriminate|].
  exists w'. split; [exact Hrun|].
  destruct (Hlit (iso_world 1)) as (v' & _ & _ & Hmax). exact Hmax.
Defined.

Lemma compare_values_leaves_vectors_witness :
  exists vecA' vecB' w',
    compare_values [3; 7; 2; 7; 1] [4; 4] (iso_world 1)
      = Ok ((vecA', vecB'), w') /\
    vecA' = [3; 7; 2; 7; 1] /\ vecB' = [4; 4] /\
    length vecA' = 5%nat /\ length vecB' = 2%nat /\
    rng w' = 1.
Proof.
  apply (@compare_values_leaves_vectors IsoRand Z _
           [3; 7; 2; 7; 1] [4; 4] (iso_world 1)); discriminate.
Defined.

(** ** The struct, its bindings and [if_init] *)

Section Bindings.
Context {L : RandLib}.

(** C8. The bindings of the struct that [createObj] returns are 5 and
    ['C'], which [bindings_example_2] writes; [if_init] writes
    "Value was not 6", and "Value was 6" is nowhere in what it writes. *)
Theorem createObj_bindings (w : world L) :
  bind2 createObj = (5, "C"%char) /\
  bindings_example_2 w
  = Ok (tt, World (cout w +:+ nl +:+ "Class contains: " +:+ nl
                          +:+ "5 C" +:+ nl) (rng w)) /\
  if_init w
  = Ok (tt, World (cout w +:+ nl +:+ "Value was not 6" +:+ nl) (rng w)) /\
  occurs "Value was 6" (nl +:+ "Value was not 6" +:+ nl) = false.
Proof.
  split; [reflexivity|]. split; [|split].
  - unfold bindings_example_2, endl. cbn [bind2 createObj memA memB].
    unfold bind. rewrite !put_ok. cbn [cout rng].
    rewrite !string_app_assoc. reflexivity.
  - unfold if_init, endl. cbn [bind2 createObj memA memB].
    change (negb (5 =? 6)) with true. cbv iota.
    unfold bind. rewrite !put_ok. cbn [cout rng].
    rewrite !string_app_assoc. reflexivity.
  - reflexivity.
Qed.

(** ** The nested namespaces *)

(** C9. [A::foo()] returns "I am an A foo!" and [A::B::foo()] returns
    "I am a B foo!", whichever of the two is called first (and neither
    call changes anything). *)
Theorem foo_qualified_calls (w : world L) :
  (a <- call A.foo ;; b <- call A.B.foo ;; ret (a, b)) w
  = Ok (("I am an A foo!", "I am a B foo!"), w) /\
  (b <- call A.B.foo ;; a <- call A.foo ;; ret (a, b)) w
  = Ok (("I am an A foo!", "I am a B foo!"), w) /\
  printFoos w
  = Ok (tt, World (cout w +:+ nl +:+ "I am an A foo!" +:+ nl
                          +:+ nl +:+ "I am a B foo!" +:+ nl) (rng w)).
Proof.
  split; [reflexivity|]. split; [reflexivity|].
  unfold printFoos, endl, call. unfold bind, ret. rewrite !put_ok.
  cbn [cout rng]. rewrite !string_app_assoc. reflexivity.
Qed.
End Bindings.

(** ** The output of [main] *)

Lemma lines_nonempty (s : string) : lines s <> [].
Proof.
  induction s as [|c s IH]; cbn [lines]; [discriminate|].
  destruct (is_nl c); [discriminate|].
  destruct (lines s); discriminate.
Qed.

Lemma lines_nl (s : string) : lines (nl +:+ s) = EmptyString :: lines s.
Proof. reflexivity. Qed.

Lemma lines_app (a s : string) :
  no_nl a = true ->
  lines (a +:+ s) = (a +:+ hd EmptyString (lines s)) :: tl (lines s).
Proof.
  induction a as [|c a IH]; intros Ha.
  - change (EmptyString +:+ s) with s. pose proof (lines_nonempty s).
    destruct (lines s); [congruence|reflexivity].
  - cbn [no_nl] in Ha. apply andb_prop in Ha as [Hc Ha].
    change (String c a +:+ s) with (String c (a +:+ s)).
    cbn [lines]. destruct (is_nl c); [discriminate|].
    rewrite (IH Ha). reflexivity.
Qed.

Lemma lines_line (a s : string) :
  no_nl a = true -> lines (a +:+ nl +:+ s) = a :: lines s.
Proof.
  intros Ha. rewrite (lines_app _ _ Ha), lines_nl. cbn [hd tl].
  rewrite string_app_nil_r. reflexivity.
Qed.

Lemma no_nl_app (a b : string) : no_nl (a +:+ b) = no_nl a && no_nl b.
Proof.
  induction a as [|c a IH]; [reflexivity|].
  change (String c a +:+ b) with (String c (a +:+ b)).
  cbn [no_nl]. rewrite IH, andb_assoc. reflexivity.
Qed.

Lemma no_nl_string_of_uint (d : Decimal.uint) :
  no_nl (NilEmpty.string_of_uint d) = true.
Proof. induction d; cbn [NilEmpty.string_of_uint no_nl]; auto. Qed.

Lemma no_nl_show_int (z : Z) : no_nl (show_int z) = true.
Proof.
  unfold show_int, NilZero.string_of_int, NilZero.string_of_uint.
  destruct (Z.to_int z) as [d|d]; destruct d;
    first [reflexivity | apply (no_nl_string_of_uint (_ d))
          | cbn [no_nl]; apply (no_nl_string_of_uint (_ d))].
Qed.

Lemma no_nl_show_vec (vec : list Z) : no_nl (show_vec vec) = true.
Proof.
  induction vec as [|x vec IH]; [reflexivity|].
  cbn [show_vec]. rewrite !no_nl_app, IH.
  cbn [vt_show int_VecType]. rewrite no_nl_show_int. reflexivity.
Qed.

Lemma no_nl_line_A (x : Z) (i : nat) : no_nl (line_A x i) = true.
Proof.
  unfold line_A. rewrite !no_nl_app. cbn [vt_show int_VecType].
  rewrite !no_nl_show_int. reflexivity.
Qed.

Lemma no_nl_line_B (x : Z) (i : nat) : no_nl (line_B x i) = true.
Proof.
  unfold line_B. rewrite !no_nl_app. cbn [vt_show int_VecType].
  rewrite !no_nl_show_int. reflexivity.
Qed.

Section Writes.
Context {L : RandLib}.

Lemma writes_ret : writes (L := L) (ret tt) EmptyString.
Proof. intros [c r]. unfold ret. rewrite string_app_nil_r. reflexivity. Qed.

Lemma writes_put s : writes (L := L) (put s) s.
Proof. intros w. reflexivity. Qed.

Lemma writes_bind (m k : M L unit) a b :
  writes m a -> writes k b -> writes (m ;; k) (a +:+ b).
Proof.
  intros Hm Hk w. rewrite (bind_ok _ _ _ _ _ (Hm w)), Hk. cbn [cout rng].
  rewrite string_app_assoc. reflexivity.
Qed.

Lemma writes_call (f : string) (k : string -> M L unit) b :
  writes (k f) b -> writes (x <- call f ;; k x) b.
Proof. intros Hk w. apply Hk. Qed.

Lemma writes_text (m : M L unit) a b : writes m a -> a = b -> writes m b.
Proof. intros Hm <-. exact Hm. Qed.
End Writes.

Ltac writes_steps :=
  repeat lazymatch goal with
    | |- writes (bind (call _) _) _ => eapply writes_call; cbv beta
    | |- writes (bind _ _) _ => eapply writes_bind
    | |- writes (put _) _ => apply writes_put
    | |- writes endl _ => apply writes_put
    | |- writes (ret tt) _ => apply writes_ret
    end.

Section Main.
Context {L : RandLib}.

(** What [main] does once the vectors have been shown. *)
Lemma main_tail_ok (w : world L) :
  (stringview_func ;;
   build_arrays ;;
   endl ;; put (show_int (sum_numbers 4 [6; 33; 7; 3; 4; 5])) ;; endl ;;
   bindings_example ;;
   bindings_example_2 ;;
   if_init ;;
   if_constexpr_func true ;;
   printFoos) w
  = Ok (tt, World (cout w +:+ fixed_tail) (rng w)).
Proof.
  revert w. change (writes (L := L)
    (stringview_func ;;
     build_arrays ;;
     endl ;; put (show_int (sum_numbers 4 [6; 33; 7; 3; 4; 5])) ;; endl ;;
     bindings_example ;;
     bindings_example_2 ;;
     if_init ;;
     if_constexpr_func true ;;
     printFoos) fixed_tail).
  unfold stringview_func, build_arrays, bindings_example,
    bindings_example_2, if_init, if_constexpr_func, printFoos, endl.
  cbn [stringview_loop bind2 createObj memA memB].
  change (negb (5 =? 6)) with true. cbv iota.
  eapply writes_text; [writes_steps | reflexivity].
Qed.

Lemma main_run (s : rstate L) :
  exists vecA vecB s1 s2 a ia b ib,
    generate_vector 10 100 (World EmptyString s)
      = Ok (vecA, World EmptyString s1) /\
    generate_vector 10 100 (World EmptyString s1)
      = Ok (vecB, World EmptyString s2) /\
    first_maximum vecA ia a /\ first_maximum vecB ib b /\
    run_from L s
    = Ok (report_A a ia +:+ report_B b ib
          +:+ nl +:+ "Values in vector before transforming: " +:+ nl
          +:+ show_vec vecA
          +:+ nl +:+ "Values in vector after transforming: " +:+ nl
          +:+ show_vec (multiplyByFive <$> vecA)
          +:+ nl +:+ fixed_tail).
Proof.
  destruct (generate_vector_ok 10 100 (World EmptyString s) (fun _ => True))
    as (vecA & [c1 s1] & HgA & HlenA & _ & HoutA); [lia | lia | auto |].
  cbn [cout] in HoutA. subst c1.
  destruct (generate_vector_ok 10 100 (World EmptyString s1) (fun _ => True))
    as (vecB & [c2 s2] & HgB & HlenB & _ & HoutB); [lia | lia | auto |].
  cbn [cout] in HoutB. subst c2.
  assert (HA : vecA <> []) by (intros ->; discriminate).
  assert (HB : vecB <> []) by (intros ->; discriminate).
  destruct (max_element_first_maximum vecA HA) as [a Ha].
  destruct (max_element_first_maximum vecB HB) as [b Hb].
  exists vecA, vecB, s1, s2, a, (max_element vecA), b, (max_element vecB).
  split; [exact HgA|]. split; [exact HgB|]. split; [exact Ha|].
  split; [exact Hb|].
  unfold run_from, main.
  rewrite (bind_ok generate_pointer _ _ tt _ eq_refl).
  rewrite (bind_ok _ _ _ _ _ HgA).
  rewrite (bind_ok _ _ _ _ _ HgB).
  rewrite (bind_ok _ _ _ _ _ (compare_values_ok _ _ _ a b (proj1 Ha) (proj1 Hb))).
  cbv beta iota.
  rewrite (bind_ok _ _ _ _ _ (generate_constexpr_lambda_ok _ _)).
  rewrite main_tail_ok. cbn [cout rng].
  rewrite !string_app_assoc. reflexivity.
Qed.
Lemma main_lines (s : rstate L) :
  exists vecA vecB s1 s2 a ia b ib o,
    generate_vector 10 100 (World EmptyString s)
      = Ok (vecA, World EmptyString s1) /\
    generate_vector 10 100 (World EmptyString s1)
      = Ok (vecB, World EmptyString s2) /\
    first_maximum vecA ia a /\ first_maximum vecB ib b /\
    run_from L s = Ok o /\
    lines o = output_lines (line_A a ia) (line_B b ib) (show_vec vecA)
                           (show_vec (multiplyByFive <$> vecA)).
Proof.
  destruct (main_run s)
    as (vecA & vecB & s1 & s2 & a & ia & b & ib & HgA & HgB & Ha & Hb & Hrun).
  exists vecA, vecB, s1, s2, a, ia, b, ib. eexists.
  split; [exact HgA|]. split; [exact HgB|]. split; [exact Ha|].
  split; [exact Hb|]. split; [exact Hrun|].
  unfold report_A, report_B. rewrite !string_app_assoc.
  rewrite lines_nl, (lines_line _ _ (no_nl_line_A a ia)).
  rewrite lines_nl, (lines_line _ _ (no_nl_line_B b ib)).
  rewrite lines_nl, lines_line by reflexivity.
  rewrite (lines_line _ _ (no_nl_show_vec vecA)).
  rewrite lines_line by reflexivity.
  rewrite (lines_line _ _ (no_nl_show_vec _)).
  reflexivity.
Qed.
End Main.

Lemma output_lines_fixed (i : nat) (a b c d a' b' c' d' : string) :
  i ∉ random_lines ->
  output_lines a b c d !! i = output_lines a' b' c' d' !! i.
Proof.
  intros Hi. unfold output_lines.
  do 28 (destruct i as [|i];
         [first [reflexivity
                | exfalso; apply Hi; unfold random_lines;
                  repeat first [apply list_elem_of_here | apply list_elem_of_further]]
         |]).
  reflexivity.
Qed.

(** C2, as the code has it.  The program returns.  Its output has 28
    lines; the lines 1, 3, 6 and 8 (counted from zero) show the two
    generated vectors, which are the values of the generator from the
    state the process starts in; two runs of a process that starts in the
    default state (the program never seeds the generator) write the same
    text; and any two runs, whatever the generator and its state, have
    the same fixed text on every other line. *)
Theorem main_output_lines (L : RandLib) :
  (exists vecA vecB w1 w2 a ia b ib o,
     generate_vector 10 100 (World EmptyString (rand_default L))
       = Ok (vecA, w1) /\
     generate_vector 10 100 w1 = Ok (vecB, w2) /\
     first_maximum vecA ia a /\ first_maximum vecB ib b /\
     run L = Ok o /\
     lines o = output_lines (line_A a ia) (line_B b ib) (show_vec vecA)
                            (show_vec (multiplyByFive <$> vecA))) /\
  (forall o1 o2, run L = Ok o1 -> run L = Ok o2 -> o1 = o2) /\
  (forall (L' : RandLib) (s : rstate L) (s' : rstate L'),
   exists o o',
     run_from L s = Ok o /\ run_from L' s' = Ok o' /\
     length (lines o) = 28%nat /\ length (lines o') = 28%nat /\
     forall i, i ∉ random_lines ->
       lines o !! i = lines o' !! i /\
       lines o !! i
       = output_lines EmptyString EmptyString EmptyString EmptyString !! i).
Proof.
  split; [|split].
  - destruct (main_lines (rand_default L))
      as (vecA & vecB & s1 & s2 & a & ia & b & ib & o & H).
    exists vecA, vecB, (World EmptyString s1), (World EmptyString s2),
      a, ia, b, ib, o.
    exact H.
  - intros o1 o2 H1 H2. rewrite H1 in H2. injection H2 as ->. reflexivity.
  - intros L' s s'.
    destruct (main_lines s)
      as (vecA & vecB & s1 & s2 & a & ia & b & ib & o & _ & _ & _ & _ & Ho & Hl).
    destruct (main_lines s')
      as (vecA' & vecB' & s1' & s2' & a' & ia' & b' & ib' & o' & _ & _ & _ & _ & Ho' & Hl').
    exists o, o'. rewrite Hl, Hl'.
    split; [exact Ho|]. split; [exact Ho'|].
    split; [reflexivity|]. split; [reflexivity|].
    intros i Hi. split; apply output_lines_fixed, Hi.
Qed.

Lemma main_output_lines_witness :
  exists o o',
    run_from IsoRand 1 = Ok o /\ run_from IsoRand 2 = Ok o' /\
    lines o !! 10%nat = lines o' !! 10%nat /\
    lines o !! 10%nat = Some "String View tester: ".
Proof.
  destruct (proj2 (proj2 (main_output_lines IsoRand)) IsoRand 1 2)
    as (o & o' & Ho & Ho' & _ & _ & Hfixed).
  exists o, o'. split; [exact Ho|]. split; [exact Ho'|].
  apply (Hfixed 10%nat). unfold random_lines. intros Hin.
  repeat (apply elem_of_cons in Hin as [Hin|Hin]; [discriminate|]).
  inversion Hin.
Defined.

(** C2, as the specification has it, fails: two runs of the program with
    the generator of [IsoRand] show the same values. *)
Lemma runs_differ_counterexample :
  run IsoRand
  = Ok (nl +:+ "Max element of Vector A: 86 at element: 9" +:+ nl
        +:+ nl +:+ "Max element of Vector B: 89 at element: 6" +:+ nl
        +:+ nl +:+ "Values in vector before transforming: " +:+ nl
        +:+ "38 58 13 15 51 27 10 19 12 86 "
        +:+ nl +:+ "Values in vector after transforming: " +:+ nl
        +:+ "190 290 65 75 255 135 50 95 60 430 " +:+ nl
        +:+ fixed_tail) /\
  ~ runs_differ IsoRand.
Proof.
  assert (Hrun : run IsoRand
                 = Ok (nl +:+ "Max element of Vector A: 86 at element: 9" +:+ nl
        +:+ nl +:+ "Max element of Vector B: 89 at element: 6" +:+ nl
        +:+ nl +:+ "Values in vector before transforming: " +:+ nl
        +:+ "38 58 13 15 51 27 10 19 12 86 "
        +:+ nl +:+ "Values in vector after transforming: " +:+ nl
        +:+ "190 290 65 75 255 135 50 95 60 430 " +:+ nl
        +:+ fixed_tail)) by (vm_compute; reflexivity).
  split; [exact Hrun|].
  intros Hdiffer. destruct (Hdiffer _ _ Hrun Hrun) as (i & _ & Hi).
  apply Hi. reflexivity.
Qed.


(** * Further properties of the routines *)

(** ** [generate_vector] and the values of the generator *)

Section GenerateStream.
Context {L : RandLib}.

Lemma next_element_step rangeVal (w : world L) :
  rangeVal <> 0 ->
  next_element rangeVal w
  = Ok (Z.rem (fst (rand_step L (rng w))) rangeVal,
        World (cout w) (snd (rand_step L (rng w)))).
Proof.
  intros Hb. unfold next_element, bind, rand, lift.
  pose proof (rand_step_range L (rng w)) as Hr.
  destruct (rand_step L (rng w)) as [r s']. cbn [fst snd] in *.
  rewrite int_rem_ok by lia. reflexivity.
Qed.

Lemma generate_loop_stream rangeVal count :
  rangeVal <> 0 ->
  forall first (v : list Z) (w : world L),
    (first + count)%nat = length v ->
    generate_loop (next_element rangeVal) first count v w
    = Ok (take first v
            ++ ((fun r => Z.rem r rangeVal) <$> rand_values L (rng w) count),
          World (cout w) (rand_after L (rng w) count)).
Proof.
  intros Hb. induction count as [|count IH]; intros first v w Hlen;
    cbn [generate_loop rand_values rand_after].
  - rewrite take_ge by lia. rewrite app_nil_r. destruct w; reflexivity.
  - rewrite (bind_ok _ _ _ _ _ (next_element_step rangeVal w Hb)).
    rewrite IH by (rewrite length_insert; lia). cbn [cout rng].
    set (x := Z.rem (fst (rand_step L (rng w))) rangeVal).
    assert (Hat : <[first := x]> v !! first = Some x)
      by (apply list_lookup_insert_eq; lia).
    rewrite (take_S_r _ _ _ Hat), take_insert_ge by lia.
    rewrite fmap_cons, <- app_assoc. reflexivity.
Qed.

Lemma generate_vector_values sizeVal rangeVal (w : world L) :
  0 <= sizeVal -> rangeVal <> 0 ->
  generate_vector sizeVal rangeVal w
  = Ok ((fun r => Z.rem r rangeVal)
          <$> rand_values L (rng w) (Z.to_nat sizeVal),
        World (cout w) (rand_after L (rng w) (Z.to_nat sizeVal))).
Proof.
  intros Hsize Hb. unfold generate_vector, vector_int, generate.
  destruct (Z.ltb_spec sizeVal 0) as [|_]; [lia|].
  rewrite (bind_ok _ _ w (replicate (Z.to_nat sizeVal) 0) w) by reflexivity.
  rewrite generate_loop_stream by (cbn; auto).
  rewrite length_replicate. reflexivity.
Qed.

Lemma rand_values_app (s : rstate L) n m :
  rand_values L s (n + m)
  = rand_values L s n ++ rand_values L (rand_after L s n) m.
Proof.
  revert s. induction n as [|n IH]; intros s; cbn [rand_values rand_after Nat.add].
  - reflexivity.
  - rewrite IH. reflexivity.
Qed.

Lemma rand_after_add (s : rstate L) n m :
  rand_after L s (n + m) = rand_after L (rand_after L s n) m.
Proof.
  revert s. induction n as [|n IH]; intros s; cbn [rand_after Nat.add].
  - reflexivity.
  - apply IH.
Qed.

Lemma length_rand_values (s : rstate L) n : length (rand_values L s n) = n.
Proof.
  revert s. induction n as [|n IH]; intros s; cbn [rand_values length];
    [reflexivity|]. rewrite IH. reflexivity.
Qed.

Lemma rand_values_range (s : rstate L) n :
  Forall (fun r => 0 <= r <= RAND_MAX L) (rand_values L s n).
Proof.
  revert s. induction n as [|n IH]; intros s; cbn [rand_values]; constructor.
  - apply rand_step_range.
  - apply IH.
Qed.

(** X1. For a length that is not negative and a bound that is not zero,
    element [i] of the vector [generate_vector] returns is the [i]-th
    value of [rand()] after the call started, modulo the bound; the call
    takes exactly as many values from the generator as the length, and
    writes nothing. *)
Theorem generate_vector_takes_values sizeVal rangeVal (w : world L) :
  0 <= sizeVal -> rangeVal <> 0 ->
  exists v w',
    generate_vector sizeVal rangeVal w = Ok (v, w') /\
    Z.of_nat (length v) = sizeVal /\
    (forall i r, rand_values L (rng w) (Z.to_nat sizeVal) !! i = Some r ->
                 v !! i = Some (Z.rem r rangeVal)) /\
    rng w' = rand_after L (rng w) (Z.to_nat sizeVal) /\
    cout w' = cout w.
Proof.
  intros Hsize Hb. eexists _, _.
  split; [apply generate_vector_values; assumption|].
  split; [rewrite length_fmap, length_rand_values; lia|].
  split; [|split; reflexivity].
  intros i r Hr. rewrite list_lookup_fmap, Hr. reflexivity.
Qed.

(** X2. For a bound that is not zero, of either sign, every element
    [generate_vector] returns is at least 0, below the absolute value of
    the bound, and at most [RAND_MAX]: a bound above [RAND_MAX + 1] does
    not widen the range of the values. *)
Theorem generate_vector_range_any_bound sizeVal rangeVal (w : world L) :
  0 <= sizeVal -> rangeVal <> 0 ->
  exists v w',
    generate_vector sizeVal rangeVal w = Ok (v, w') /\
    Forall (fun x => 0 <= x < Z.abs rangeVal /\ x <= RAND_MAX L) v.
Proof.
  intros Hsize Hb. eexists _, _.
  split; [apply generate_vector_values; assumption|].
  apply Forall_fmap. eapply Forall_impl; [apply rand_values_range|].
  intros r [Hr0 Hr1]. unfold compose.
  assert (Habs : Z.rem r rangeVal = Z.rem r (Z.abs rangeVal)).
  { destruct (Z.abs_spec rangeVal) as [[_ ->]|[_ ->]];
      [reflexivity | symmetry; apply Z.rem_opp_r; lia]. }
  rewrite Habs.
  pose proof (Z.rem_bound_pos r (Z.abs rangeVal)).
  pose proof (Z.rem_le r (Z.abs rangeVal)). lia.
Qed.

(** X3. The outcomes of [generate_vector]: it fails with the length error
    of the vector constructor exactly when the length is negative,
    whatever the bound (also a bound of zero); a length of zero returns
    the empty vector and leaves the generator and the output as they
    were, also for a bound of zero; and it never fails in another way
    than by that length error or a modulo by zero. *)
Theorem generate_vector_outcomes sizeVal rangeVal (w : world L) :
  (generate_vector sizeVal rangeVal w = Fail LengthError <-> sizeVal < 0) /\
  (sizeVal = 0 -> generate_vector sizeVal rangeVal w = Ok ([], w)) /\
  (forall e, generate_vector sizeVal rangeVal w = Fail e ->
             e = LengthError \/ e = ModuloByZero).
Proof.
  assert (Hneg : sizeVal < 0 ->
                 generate_vector sizeVal rangeVal w = Fail LengthError).
  { intros Hlt. unfold generate_vector, vector_int.
    destruct (Z.ltb_spec sizeVal 0) as [_|]; [reflexivity|lia]. }
  assert (Hcases : sizeVal < 0 \/ sizeVal = 0 \/
                   (0 < sizeVal /\ rangeVal = 0) \/
                   (0 <= sizeVal /\ rangeVal <> 0)) by lia.
  split; [split|split].
  - intros Hfail.
    destruct Hcases as [Hlt|[->|[[Hpos ->]|[Hpos Hb]]]]; [exact Hlt|..].
    + cbn in Hfail. discriminate.
    + rewrite generate_vector_zero in Hfail by exact Hpos. discriminate.
    + rewrite generate_vector_values in Hfail by assumption. discriminate.
  - exact Hneg.
  - intros ->. reflexivity.
  - intros e Hfail.
    destruct Hcases as [Hlt|[->|[[Hpos ->]|[Hpos Hb]]]].
    + rewrite (Hneg Hlt) in Hfail. injection Hfail as <-. left; reflexivity.
    + cbn in Hfail. discriminate.
    + rewrite generate_vector_zero in Hfail by exact Hpos.
      injection Hfail as <-. right; reflexivity.
    + rewrite generate_vector_values in Hfail by assumption. discriminate.
Qed.

(** X4. Two calls of [generate_vector] in a row, with the same bound,
    return the two parts of what one call for the sum of the two lengths
    returns, and leave the generator in the same state. *)
Theorem generate_vector_in_a_row n m rangeVal (w : world L) :
  0 <= n -> 0 <= m -> rangeVal <> 0 ->
  exists v1 w1 v2 w2,
    generate_vector n rangeVal w = Ok (v1, w1) /\
    generate_vector m rangeVal w1 = Ok (v2, w2) /\
    generate_vector (n + m) rangeVal w = Ok (v1 ++ v2, w2).
Proof.
  intros Hn Hm Hb. eexists _, _, _, _.
  split; [apply generate_vector_values; assumption|].
  split; [apply generate_vector_values; assumption|].
  rewrite generate_vector_values by lia. cbn [cout rng].
  rewrite Z2Nat.inj_add, rand_values_app, rand_after_add, fmap_app by lia.
  reflexivity.
Qed.
End GenerateStream.

Lemma generate_vector_takes_values_witness :
  exists v w',
    generate_vector 3 100 (iso_world 1) = Ok (v, w') /\
    Z.of_nat (length v) = 3 /\
    (forall i r, rand_values IsoRand 1 3 !! i = Some r ->
                 v !! i = Some (Z.rem r 100)) /\
    rng w' = rand_after IsoRand 1 3 /\
    cout w' = EmptyString.
Proof.
  apply (@generate_vector_takes_values IsoRand 3 100 (iso_world 1)); lia.
Defined.

Lemma generate_vector_range_any_bound_witness :
  exists v w',
    generate_vector 4 (-7) (iso_world 1) = Ok (v, w') /\
    Forall (fun x => 0 <= x < 7 /\ x <= 32767) v.
Proof.
  apply (@generate_vector_range_any_bound IsoRand 4 (-7) (iso_world 1)); lia.
Defined.

Lemma generate_vector_outcomes_witness :
  generate_vector (-1) 0 (iso_world 1) = Fail LengthError /\
  generate_vector 0 0 (iso_world 1) = Ok ([], iso_world 1).
Proof.
  split.
  - apply (@generate_vector_outcomes IsoRand (-1) 0 (iso_world 1)). lia.
  - apply (@generate_vector_outcomes IsoRand 0 0 (iso_world 1)). reflexivity.
Defined.

Lemma generate_vector_in_a_row_witness :
  exists v1 w1 v2 w2,
    generate_vector 2 100 (iso_world 1) = Ok (v1, w1) /\
    generate_vector 3 100 w1 = Ok (v2, w2) /\
    generate_vector 5 100 (iso_world 1) = Ok (v1 ++ v2, w2).
Proof.
  apply (@generate_vector_in_a_row IsoRand 2 3 100 (iso_world 1)); lia.
Defined.

(** ** [compare_values] on an empty vector, and the position it shows *)

Section CompareValuesEmpty.
Context {L : RandLib} {T : Type} `{VecType T}.

(** X5. [compare_values] fails exactly when one of the two vectors is
    empty, and then by reading through [end()]; for two vectors that are
    not empty it returns, whatever the element type and its order. *)
Theorem compare_values_fails_iff_empty (vecA vecB : list T) (w : world L) :
  (compare_values vecA vecB w = Fail DerefEnd <-> vecA = [] \/ vecB = []) /\
  (forall e, compare_values vecA vecB w = Fail e -> e = DerefEnd).
Proof.
  destruct (decide (vecA = [])) as [->|HA].
  { rewrite compare_values_empty_A. split.
    - split; [left; reflexivity|reflexivity].
    - intros e He. injection He as <-. reflexivity. }
  destruct (decide (vecB = [])) as [->|HB].
  { rewrite (compare_values_empty_B vecA w HA). split.
    - split; [right; reflexivity|reflexivity].
    - intros e He. injection He as <-. reflexivity. }
  destruct (lookup_lt_is_Some_2 vecA (max_element vecA)) as [a Ha];
    [apply max_element_lt, HA|].
  destruct (lookup_lt_is_Some_2 vecB (max_element vecB)) as [b Hb];
    [apply max_element_lt, HB|].
  rewrite (compare_values_ok _ _ w a b Ha Hb). split.
  - split; [discriminate|]. intros [?|?]; contradiction.
  - discriminate.
Qed.
End CompareValuesEmpty.

Section FirstMaximum.
Context {T : Type} `{StrictWeakOrder T}.

Lemma first_maximum_unique (v : list T) i x j y :
  first_maximum v i x -> first_maximum v j y -> i = j /\ x = y.
Proof.
  intros (Hi & Hmaxi & Hfirsti) (Hj & Hmaxj & Hfirstj).
  assert (Hij : i = j).
  { destruct (lt_eq_lt_dec i j) as [[Hlt|Heq]|Hgt]; [|exact Heq|].
    - pose proof (Hfirstj i x Hlt Hi) as Hless.
      rewrite (Hmaxi j y Hj) in Hless. discriminate.
    - pose proof (Hfirsti j y Hgt Hj) as Hless.
      rewrite (Hmaxj i x Hi) in Hless. discriminate. }
  split; [exact Hij|]. subst j. rewrite Hi in Hj. injection Hj as ->.
  reflexivity.
Qed.

(** X6. For a vector that is not empty and an order that is a strict weak
    order, the position [max_element] returns is the only position of a
    first maximum: [x] at [i] is the first maximum of the vector exactly
    when [i] is that position and [x] the element there. *)
Theorem max_element_only_first_maximum (v : list T) (i : nat) (x : T) :
  v <> [] ->
  (first_maximum v i x <-> i = max_element v /\ v !! i = Some x).
Proof.
  intros Hv. destruct (max_element_first_maximum v Hv) as [x0 Hx0]. split.
  - intros Hix. destruct (first_maximum_unique v i x _ x0 Hix Hx0) as [-> ->].
    split; [reflexivity|exact (proj1 Hx0)].
  - intros [-> Hx]. rewrite (proj1 Hx0) in Hx. injection Hx as <-. exact Hx0.
Qed.
End FirstMaximum.

Lemma max_element_only_first_maximum_witness :
  first_maximum [3; 7; 2; 7; 1] 1 7 <->
  1%nat = max_element [3; 7; 2; 7; 1] /\ [3; 7; 2; 7; 1] !! 1%nat = Some 7.
Proof.
  apply (@max_element_only_first_maximum Z _ _ [3; 7; 2; 7; 1] 1%nat 7).
  discriminate.
Defined.

(** ** [print_vec] and [generate_constexpr_lambda] for any element type *)

Section PrintVec.
Context {L : RandLib} {T : Type} `{VecType T}.

Lemma show_vec_app (v1 v2 : list T) :
  show_vec (v1 ++ v2) = show_vec v1 +:+ show_vec v2.
Proof.
  induction v1 as [|x v1 IH]; [reflexivity|].
  cbn [app show_vec]. rewrite IH, !string_app_assoc. reflexivity.
Qed.

(** X7. [print_vec] never fails and does not use the generator; on the
    empty vector it writes nothing; and printing two vectors one after
    the other writes what printing the two put end to end writes (each
    element, the last one too, is followed by one space and nothing else
    separates two vectors). *)
Theorem print_vec_end_to_end (v1 v2 : list T) (w : world L) :
  (exists text, print_vec v1 w = Ok (tt, World (cout w +:+ text) (rng w))) /\
  print_vec [] w = Ok (tt, w) /\
  (print_vec v1 ;; print_vec v2)%cpp w = print_vec (v1 ++ v2) w /\
  (forall x, exists w',
     print_vec (v1 ++ [x]) w = Ok (tt, w') /\
     exists text, cout w' = text +:+ vt_show x +:+ " ").
Proof.
  split; [|split; [|split]].
  - exists (show_vec v1). apply print_vec_ok.
  - reflexivity.
  - rewrite (bind_ok _ _ _ _ _ (print_vec_ok v1 w)), !print_vec_ok.
    cbn [cout rng]. rewrite show_vec_app, string_app_assoc. reflexivity.
  - intros x. eexists. split; [apply print_vec_ok|].
    exists (cout w +:+ show_vec v1). cbn [cout].
    rewrite show_vec_app, !string_app_assoc. reflexivity.
Qed.

(** X8. For any element type, [generate_constexpr_lambda] returns: the
    vector keeps its length and every element becomes its product with
    5; the generator is not used; and the text written is the first
    heading, the listing of the vector as it was, the second heading,
    the listing of the vector as it is left, and a line feed. *)
Theorem generate_constexpr_lambda_any_type (vec : list T) (w : world L) :
  exists vec' w',
    generate_constexpr_lambda vec w = Ok (vec', w') /\
    length vec' = length vec /\
    (forall i, vec' !! i = (fun x => vt_times x 5) <$> vec !! i) /\
    rng w' = rng w /\
    cout w' = cout w
              +:+ nl +:+ "Values in vector before transforming: " +:+ nl
              +:+ show_vec vec
              +:+ nl +:+ "Values in vector after transforming: " +:+ nl
              +:+ show_vec vec' +:+ nl.
Proof.
  eexists _, _. split; [apply generate_constexpr_lambda_ok|].
  split; [apply length_fmap|]. split; [|split; reflexivity].
  intros i. apply list_lookup_fmap.
Qed.
End PrintVec.

(** ** [sum_numbers] and the order of its arguments *)

Lemma sum_numbers_wrapped v v' vs :
  sum_numbers v (v' :: vs) = wrap_int (sum_exact v (v' :: vs)).
Proof.
  rewrite <- sum_numbers_wrap. cbn [sum_numbers]. unfold int_add.
  symmetry. apply wrap_int_id, wrap_int_range.
Qed.

Lemma sum_exact_permutation v vs u us :
  v :: vs ≡ₚ u :: us -> sum_exact v vs = sum_exact u us.
Proof.
  intros Hperm. unfold sum_exact.
  change (foldr Z.add 0 (v :: vs) = foldr Z.add 0 (u :: us)).
  induction Hperm as [|x l l' _ IH|x y l|l l' l'' _ IH1 _ IH2]; cbn [foldr].
  - reflexivity.
  - rewrite IH. reflexivity.
  - lia.
  - congruence.
Qed.

(** X9. The value of [sum_numbers] does not depend on the order of its
    arguments: two argument lists that are permutations of one another
    have the same sum. *)
Theorem sum_numbers_any_order v vs u us :
  v :: vs ≡ₚ u :: us -> sum_numbers v vs = sum_numbers u us.
Proof.
  intros Hperm. pose proof (Permutation_length Hperm) as Hlen.
  destruct vs as [|v' vs], us as [|u' us]; try discriminate Hlen.
  - apply Permutation_singleton_l in Hperm. injection Hperm as ->.
    reflexivity.
  - rewrite !sum_numbers_wrapped. f_equal.
    apply sum_exact_permutation, Hperm.
Qed.

(** X10. Summing a list of arguments in two groups and adding the two
    results gives the sum of the whole list:
    [sum_numbers(a..., b...)] is
    [sum_numbers(sum_numbers(a...), sum_numbers(b...))]. *)
Theorem sum_numbers_in_groups v vs u us :
  sum_numbers v (vs ++ u :: us)
  = sum_numbers (sum_numbers v vs) [sum_numbers u us].
Proof.
  cbn [sum_numbers]. revert v.
  induction vs as [|v' vs IH]; intros v; cbn [app sum_numbers].
  - reflexivity.
  - rewrite IH. apply int_add_assoc.
Qed.

Lemma sum_numbers_any_order_witness :
  sum_numbers 4 [6; 33; 7; 3; 4; 5] = sum_numbers 5 [4; 3; 7; 33; 6; 4].
Proof.
  apply sum_numbers_any_order.
  change ([4; 6; 33; 7; 3; 4; 5] ≡ₚ reverse [4; 6; 33; 7; 3; 4; 5]).
  symmetry. apply reverse_Permutation.
Defined.

(** ** [main] and the generator *)

Lemma lines_of_text (a b : Z) (ia ib : nat) (before after : list Z) :
  lines (report_A a ia +:+ report_B b ib
         +:+ nl +:+ "Values in vector before transforming: " +:+ nl
         +:+ show_vec before
         +:+ nl +:+ "Values in vector after transforming: " +:+ nl
         +:+ show_vec after
         +:+ nl +:+ fixed_tail)
  = output_lines (line_A a ia) (line_B b ib) (show_vec before) (show_vec after).
Proof.
  unfold report_A, report_B. rewrite !string_app_assoc.
  rewrite lines_nl, (lines_line _ _ (no_nl_line_A a ia)).
  rewrite lines_nl, (lines_line _ _ (no_nl_line_B b ib)).
  rewrite lines_nl, lines_line by reflexivity.
  rewrite (lines_line _ _ (no_nl_show_vec before)).
  rewrite lines_line by reflexivity.
  rewrite (lines_line _ _ (no_nl_show_vec after)).
  reflexivity.
Qed.

Lemma multiplyByFive_exact (vec : list Z) :
  Forall (fun x => 0 <= x < 100) vec ->
  multiplyByFive <$> vec = Z.mul 5 <$> vec.
Proof.
  intros Hvec. apply list_fmap_ext. intros i x Hx.
  unfold multiplyByFive. cbn [vt_times int_VecType]. unfold int_mul.
  rewrite Z.mul_comm. apply wrap_int_id.
  pose proof (Forall_lookup_1 _ _ _ _ Hvec Hx) as Hin. cbn beta in Hin.
  unfold int_range, INT_MIN, INT_MAX. lia.
Qed.

Section MainGenerator.
Context {L : RandLib}.

Lemma main_world (s s1 s2 : rstate L) (vecA vecB : list Z) (a b : Z) :
  generate_vector 10 100 (World EmptyString s)
    = Ok (vecA, World EmptyString s1) ->
  generate_vector 10 100 (World EmptyString s1)
    = Ok (vecB, World EmptyString s2) ->
  vecA !! max_element vecA = Some a ->
  vecB !! max_element vecB = Some b ->
  main (World EmptyString s)
  = Ok (tt, World (report_A a (max_element vecA)
                   +:+ report_B b (max_element vecB)
                   +:+ nl +:+ "Values in vector before transforming: " +:+ nl
                   +:+ show_vec vecA
                   +:+ nl +:+ "Values in vector after transforming: " +:+ nl
                   +:+ show_vec (multiplyByFive <$> vecA)
                   +:+ nl +:+ fixed_tail) s2).
Proof.
  intros HgA HgB Ha Hb. unfold main.
  rewrite (bind_ok generate_pointer _ _ tt _ eq_refl).
  rewrite (bind_ok _ _ _ _ _ HgA).
  rewrite (bind_ok _ _ _ _ _ HgB).
  rewrite (bind_ok _ _ _ _ _ (compare_values_ok _ _ _ a b Ha Hb)).
  cbv beta iota.
  rewrite (bind_ok _ _ _ _ _ (generate_constexpr_lambda_ok _ _)).
  rewrite main_tail_ok. cbn [cout rng].
  rewrite !string_app_assoc. reflexivity.
Qed.

(** X11. For every generator and every state it starts in, [main]
    returns: none of the failures of its routines happens.  It takes
    exactly twenty values from the generator, the first ten (modulo 100)
    for the first vector and the next ten for the second; the maxima it
    shows are between 0 and 99 at positions between 0 and 9; and the
    second listing shows exactly 5 times each value of the first one (no
    product leaves the range of [int]). *)
Theorem main_takes_twenty_values (s : rstate L) :
  exists vecA vecB a ia b ib text,
    vecA = (fun r => Z.rem r 100) <$> rand_values L s 10 /\
    vecB = (fun r => Z.rem r 100) <$> rand_values L (rand_after L s 10) 10 /\
    main (World EmptyString s) = Ok (tt, World text (rand_after L s 20)) /\
    lines text = output_lines (line_A a ia) (line_B b ib)
                              (show_vec vecA) (show_vec (Z.mul 5 <$> vecA)) /\
    first_maximum vecA ia a /\ first_maximum vecB ib b /\
    0 <= a < 100 /\ 0 <= b < 100 /\ (ia < 10)%nat /\ (ib < 10)%nat.
Proof.
  set (vecA := (fun r => Z.rem r 100) <$> rand_values L s 10).
  set (vecB := (fun r => Z.rem r 100) <$> rand_values L (rand_after L s 10) 10).
  assert (HgA : generate_vector 10 100 (World EmptyString s)
                = Ok (vecA, World EmptyString (rand_after L s 10)))
    by (rewrite generate_vector_values by lia; reflexivity).
  assert (HgB : generate_vector 10 100 (World EmptyString (rand_after L s 10))
                = Ok (vecB, World EmptyString (rand_after L s 20)))
    by (rewrite generate_vector_values by lia; cbn [cout rng];
        rewrite <- rand_after_add; reflexivity).
  assert (Hrange : forall s0 n,
             Forall (fun x => 0 <= x < 100)
                    ((fun r => Z.rem r 100) <$> rand_values L s0 n)).
  { intros s0 n. apply Forall_fmap.
    eapply Forall_impl; [apply rand_values_range|].
    intros r [Hr _]. unfold compose. apply Z.rem_bound_pos; lia. }
  assert (HlenA : length vecA = 10%nat)
    by (unfold vecA; rewrite length_fmap; apply length_rand_values).
  assert (HlenB : length vecB = 10%nat)
    by (unfold vecB; rewrite length_fmap; apply length_rand_values).
  assert (HA : vecA <> []) by (intros E; rewrite E in HlenA; discriminate).
  assert (HB : vecB <> []) by (intros E; rewrite E in HlenB; discriminate).
  destruct (max_element_first_maximum vecA HA) as [a Ha].
  destruct (max_element_first_maximum vecB HB) as [b Hb].
  exists vecA, vecB, a, (max_element vecA), b, (max_element vecB).
  eexists. split; [reflexivity|]. split; [reflexivity|].
  split; [apply (main_world _ _ _ _ _ a b HgA HgB (proj1 Ha) (proj1 Hb))|].
  split; [rewrite (multiplyByFive_exact vecA (Hrange _ _)); apply lines_of_text|].
  split; [exact Ha|]. split; [exact Hb|].
  split; [exact (Forall_lookup_1 _ _ _ _ (Hrange _ _) (proj1 Ha))|].
  split; [exact (Forall_lookup_1 _ _ _ _ (Hrange _ _) (proj1 Hb))|].
  split.
  - rewrite <- HlenA. apply (lookup_lt_Some _ _ _ (proj1 Ha)).
  - rewrite <- HlenB. apply (lookup_lt_Some _ _ _ (proj1 Hb)).
Qed.
End MainGenerator.

Section MainValues.
Context {L : RandLib}.

Lemma main_values (s : rstate L) :
  main (World EmptyString s)
  = Ok (tt, World (main_text
                     ((fun r => Z.rem r 100) <$> rand_values L s 10)
                     ((fun r => Z.rem r 100)
                        <$> rand_values L (rand_after L s 10) 10))
                  (rand_after L s 20)).
Proof.
  set (vecA := (fun r => Z.rem r 100) <$> rand_values L s 10).
  set (vecB := (fun r => Z.rem r 100) <$> rand_values L (rand_after L s 10) 10).
  assert (HgA : generate_vector 10 100 (World EmptyString s)
                = Ok (vecA, World EmptyString (rand_after L s 10)))
    by (rewrite generate_vector_values by lia; reflexivity).
  assert (HgB : generate_vector 10 100 (World EmptyString (rand_after L s 10))
                = Ok (vecB, World EmptyString (rand_after L s 20)))
    by (rewrite generate_vector_values by lia; cbn [cout rng];
        rewrite <- rand_after_add; reflexivity).
  assert (HlenA : length vecA = 10%nat)
    by (unfold vecA; rewrite length_fmap; apply length_rand_values).
  assert (HlenB : length vecB = 10%nat)
    by (unfold vecB; rewrite length_fmap; apply length_rand_values).
  destruct (lookup_lt_is_Some_2 vecA (max_element vecA)) as [a Ha].
  { apply max_element_lt. intros E. rewrite E in HlenA. discriminate. }
  destruct (lookup_lt_is_Some_2 vecB (max_element vecB)) as [b Hb].
  { apply max_element_lt. intros E. rewrite E in HlenB. discriminate. }
  rewrite (main_world _ _ _ _ _ a b HgA HgB Ha Hb).
  unfold main_text. rewrite Ha, Hb. reflexivity.
Qed.

Lemma run_from_values (s : rstate L) :
  run_from L s
  = Ok (main_text
          ((fun r => Z.rem r 100) <$> rand_values L s 10)
          ((fun r => Z.rem r 100) <$> rand_values L (rand_after L s 10) 10)).
Proof. unfold run_from. rewrite main_values. reflexivity. Qed.
End MainValues.

(** X12. The output of [main] depends on the generator through its first
    twenty values only: two runs, with any two generators in any two
    states, whose generators return the same first twenty values write
    the same text. *)
Theorem main_same_values_same_output (L1 L2 : RandLib)
    (s1 : rstate L1) (s2 : rstate L2) :
  rand_values L1 s1 20 = rand_values L2 s2 20 ->
  run_from L1 s1 = run_from L2 s2.
Proof.
  intros Hvalues. rewrite !run_from_values.
  change 20%nat with (10 + 10)%nat in Hvalues.
  rewrite !rand_values_app in Hvalues.
  apply app_inj_1 in Hvalues as [-> ->];
    [reflexivity | rewrite !length_rand_values; reflexivity].
Qed.

Lemma main_same_values_same_output_witness :
  run_from CountRand 0 = run_from CountRand 32768.
Proof.
  apply (main_same_values_same_output CountRand CountRand 0 32768).
  reflexivity.
Defined.

(** ** Reading the listing of [print_vec] back *)

Lemma no_space_string_of_uint (d : Decimal.uint) :
  no_space (NilEmpty.string_of_uint d) = true.
Proof. induction d; cbn [NilEmpty.string_of_uint no_space]; auto. Qed.

Lemma no_space_show_int (z : Z) : no_space (show_int z) = true.
Proof.
  unfold show_int, NilZero.string_of_int, NilZero.string_of_uint.
  destruct (Z.to_int z) as [d|d]; destruct d;
    first [reflexivity | apply (no_space_string_of_uint (_ d))
          | cbn [no_space]; apply (no_space_string_of_uint (_ d))].
Qed.

Lemma fields_field (a s : string) :
  no_space a = true -> fields (a +:+ " " +:+ s) = a :: fields s.
Proof.
  induction a as [|c a IH]; intros Ha.
  - reflexivity.
  - cbn [no_space] in Ha. apply andb_prop in Ha as [Hc Ha].
    change (String c a +:+ " " +:+ s) with (String c (a +:+ " " +:+ s)).
    cbn [fields]. destruct (is_space c); [discriminate|].
    rewrite (IH Ha). reflexivity.
Qed.

Lemma fields_show_vec (vec : list Z) : fields (show_vec vec) = show_int <$> vec.
Proof.
  induction vec as [|x vec IH]; [reflexivity|].
  cbn [show_vec vt_show int_VecType].
  rewrite fields_field by apply no_space_show_int.
  rewrite IH. reflexivity.
Qed.

Lemma to_int_not_nil (z : Z) :
  Z.to_int z <> Decimal.Pos Decimal.Nil /\ Z.to_int z <> Decimal.Neg Decimal.Nil.
Proof.
  split; intros Hnil; pose proof (f_equal Z.of_int Hnil) as Hz;
    rewrite DecimalZ.of_to in Hz; subst z; discriminate Hnil.
Qed.

Lemma read_int_show_int (z : Z) : read_int (show_int z) = Some z.
Proof.
  unfold read_int, show_int. destruct (to_int_not_nil z) as [Hpos Hneg].
  rewrite NilZero.isi by assumption. cbn [option_map].
  rewrite DecimalZ.of_to. reflexivity.
Qed.

Lemma show_vec_inj (v1 v2 : list Z) : show_vec v1 = show_vec v2 -> v1 = v2.
Proof.
  intros Heq. apply (f_equal fields) in Heq. rewrite !fields_show_vec in Heq.
  revert v2 Heq. induction v1 as [|x v1 IH]; intros [|y v2] Heq;
    try discriminate Heq; [reflexivity|].
  rewrite !fmap_cons in Heq. injection Heq as Hxy Hrest.
  apply (f_equal read_int) in Hxy. rewrite !read_int_show_int in Hxy.
  injection Hxy as ->. rewrite (IH v2 Hrest). reflexivity.
Qed.

Section ReadBack.
Context {L : RandLib}.

(** X13. The listing [print_vec] writes for a vector of [int] can be read
    back: its pieces, each ended by a space, are the decimal texts of the
    elements in order; so two vectors whose listings are the same text
    are the same vector. *)
Theorem print_vec_read_back (vec : list Z) (w : world L) :
  (exists text,
     print_vec vec w = Ok (tt, World (cout w +:+ text) (rng w)) /\
     read_int <$> fields text = Some <$> vec) /\
  (forall vec' : list Z, print_vec vec' w = print_vec vec w -> vec' = vec).
Proof.
  split.
  - exists (show_vec vec). split; [apply print_vec_ok|].
    rewrite fields_show_vec, <- list_fmap_compose.
    apply list_fmap_ext. intros i x _. apply read_int_show_int.
  - intros vec' Heq. rewrite !print_vec_ok in Heq.
    injection Heq as Heq. apply String.app_inj in Heq.
    apply show_vec_inj, Heq.
Qed.
End ReadBack.

Lemma lines_main_text (vecA vecB : list Z) :
  lines (main_text vecA vecB) !! 6%nat = Some (show_vec vecA).
Proof. unfold main_text. rewrite lines_of_text. reflexivity. Qed.

(** X14. The first listing in the output of [main] shows the first vector
    and nothing else: for two runs, with any two generators in any two
    states, the line of the first listing (line 6, counted from zero) is
    the same in both exactly when the first ten values of the two
    generators are the same modulo 100. *)
Theorem main_listing_shows_first_vector (L1 L2 : RandLib)
    (s1 : rstate L1) (s2 : rstate L2) :
  exists o1 o2,
    run_from L1 s1 = Ok o1 /\ run_from L2 s2 = Ok o2 /\
    (lines o1 !! 6%nat = lines o2 !! 6%nat <->
     (fun r => Z.rem r 100) <$> rand_values L1 s1 10
     = (fun r => Z.rem r 100) <$> rand_values L2 s2 10).
Proof.
  eexists _, _. split; [apply run_from_values|].
  split; [apply run_from_values|].
  rewrite !lines_main_text. split.
  - intros Heq. injection Heq as Heq. apply show_vec_inj, Heq.
  - intros ->. reflexivity.
Qed.

Lemma main_listing_shows_first_vector_witness :
  exists o1 o2,
    run_from IsoRand 1 = Ok o1 /\ run_from CountRand 38 = Ok o2 /\
    lines o1 !! 6%nat <> lines o2 !! 6%nat.
Proof.
  destruct (main_listing_shows_first_vector IsoRand CountRand 1 38)
    as (o1 & o2 & H1 & H2 & Hiff).
  exists o1, o2. split; [exact H1|]. split; [exact H2|].
  intros Heq. apply Hiff in Heq. discriminate Heq.
Defined.
